(** * APEX variation bookkeeping of Soong ([android/apex.go])

    A shallow embedding of the pure and state-passing parts of
    [android/apex.go]: the availability predicate, the SDK version
    chooser, the registration and merging of APEX variations, the
    creation of the variant labels, the global module/APEX registry and
    the callback of the min_sdk_version payload walk.

    Go slices are lists, Go maps are [gmap]s, a Go [panic] is [None] and a
    Go [(value, error)] pair is a sum. *)

From Stdlib Require Import ZArith Ascii DecimalString.
From stdpp Require Import gmap strings list sorting.
From Equations Require Import Equations.

Local Open Scope Z_scope.

(** ** API levels *)

Module ApiLevels.

(** Modelled from the spec: the [ApiLevel] type of [android/api_levels.go]
    is not part of the sources at hand.  The spec speaks of a "comparable
    API level" that is either "finalized" (a number) or "unfinalized"
    (current or a codename); [value] is the serialized form, [number] the
    numeric level and [isPreview] marks the unfinalized levels. *)
Record ApiLevel := mkApiLevel {
  value : string;
  number : Z;
  isPreview : bool
}.

#[global] Instance ApiLevel_eq_dec : EqDecision ApiLevel.
Proof. solve_decision. Defined.

(** Modelled from the spec: the numeric level every unfinalized level
    stands for in a merged variation name. *)
Definition FutureApiLevelInt : Z := 10000.

(** Modelled from the spec: "the numeric form of minSdkVersion". *)
Definition FinalOrFutureInt (this : ApiLevel) : Z :=
  if isPreview this then FutureApiLevelInt else number this.

(** Modelled from the spec: a level is "current" when it is the
    unfinalized level spelled [current]. *)
Definition IsCurrent (this : ApiLevel) : bool :=
  String.eqb (value this) "current".

(** Modelled from the spec: API levels are "comparable"; every unfinalized
    level is above every finalized one, otherwise numbers decide. *)
Definition CompareTo (this other : ApiLevel) : comparison :=
  match isPreview this, isPreview other with
  | true, false => Gt
  | false, true => Lt
  | _, _ => Z.compare (number this) (number other)
  end.

Definition LessThanOrEqualTo (this other : ApiLevel) : bool :=
  match CompareTo this other with Gt => false | _ => true end.

Definition GreaterThan (this other : ApiLevel) : bool :=
  match CompareTo this other with Gt => true | _ => false end.

Definition GreaterThanOrEqualTo (this other : ApiLevel) : bool :=
  match CompareTo this other with Lt => false | _ => true end.

(** [strconv.Itoa] on a Go [int]. *)
Definition Itoa (n : Z) : string := NilZero.string_of_int (Z.to_int n).

(** Modelled from the spec: a "finalized level" built from its number. *)
Definition uncheckedFinalApiLevel (num : Z) : ApiLevel :=
  {| value := Itoa num; number := num; isPreview := false |}.

End ApiLevels.
Export ApiLevels.

(** ** The build contexts

    What the functions below ask of their [ctx] argument.  The contexts are
    supplied by the graph engine; only the queries made in [apex.go] are
    kept. *)
Record Context := mkContext {
  (** [ApiLevelFromUser(ctx, raw)]: the parsed level or an error message. *)
  ApiLevelFromUser : string → ApiLevel + string;
  Host : bool;
  EmmaInstrument : bool;          (* ctx.Config().IsEnvTrue("EMMA_INSTRUMENT") *)
  NativeCoverageEnabled : bool;   (* ctx.DeviceConfig().NativeCoverageEnabled() *)
  ClangCoverageEnabled : bool;    (* ctx.DeviceConfig().ClangCoverageEnabled() *)
  OtherModuleExists : string → bool;
  AllowMissingDependencies : bool
}.

(** Modelled from the spec: [ApiLevelOrPanic] of [android/api_levels.go] is
    not part of the sources at hand.  It yields the level a serialized
    [minSdkVersion] stands for and, as its name says, panics on a string that
    is no API level; [None] stands for the panic. *)
Definition ApiLevelOrPanic (ctx : Context) (raw : string) : option ApiLevel :=
  match ApiLevelFromUser ctx raw with
  | inl lvl => Some lvl
  | inr _ => None
  end.

(** ** [ApexInfo] *)

Record SdkRef := mkSdkRef {
  Name : string;
  Version : string
}.

#[global] Instance SdkRef_eq_dec : EqDecision SdkRef.
Proof. solve_decision. Defined.

Record ApexInfo := mkApexInfo {
  ApexVariationName : string;
  MinSdkVersionStr : string;
  Updatable : bool;
  RequiredSdks : list SdkRef;
  InApexes : list string
}.

#[global] Instance ApexInfo_eq_dec : EqDecision ApexInfo.
Proof. solve_decision. Defined.

Definition MinSdkVersion (ctx : Context) (this : ApexInfo) : option ApiLevel :=
  ApiLevelOrPanic ctx (MinSdkVersionStr this).

(** The loop of [mergedName]: [name += "_" + sdk.Name + "_" + sdk.Version]. *)
Definition mergedName_sdks (name : string) (sdks : list SdkRef) : string :=
  foldl (λ name sdk, name +:+ "_" +:+ Name sdk +:+ "_" +:+ Version sdk) name sdks.

Definition mergedName (ctx : Context) (i : ApexInfo) : option string :=
  lvl ← MinSdkVersion ctx i;
  Some (mergedName_sdks ("apex" +:+ Itoa (FinalOrFutureInt lvl)) (RequiredSdks i)).

(** ** Availability *)

Definition AvailableToPlatform : string := "//apex_available:platform".
Definition AvailableToAnyApex : string := "//apex_available:anyapex".
Definition AvailableToGkiApex : string := "com.android.gki.*".

(** Modelled from the spec: [InList] of [android/util.go] is not part of the
    sources at hand; it tells whether the string "appears verbatim in" the
    list. *)
Fixpoint InList (s : string) (l : list string) : bool :=
  match l with
  | [] => false
  | x :: l' => if String.eqb x s then true else InList s l'
  end.

(** [strings.HasPrefix(s, prefix)]. *)
Definition HasPrefix (s pre : string) : bool := String.prefix pre s.

Definition CheckAvailableForApex (what : string) (apex_available : list string) : bool :=
  if (length apex_available =? 0)%nat then
    String.eqb what AvailableToPlatform
  else
    InList what apex_available
    || (negb (String.eqb what AvailableToPlatform) && InList AvailableToAnyApex apex_available)
    || (HasPrefix what "com.android.gki." && InList AvailableToGkiApex apex_available).

(** ** Sorting, as [sort.Sort], [sort.Strings] and [sort.SearchStrings] *)

(** [byApexName.Less]: [a[i].ApexVariationName < a[j].ApexVariationName],
    Go's bytewise comparison of strings. *)
Definition byApexName_Less (a b : ApexInfo) : bool :=
  String.ltb (ApexVariationName a) (ApexVariationName b).

(** Two neighbours are in order when the later one is not [Less] than the
    earlier one. *)
Definition byApexName_le (a b : ApexInfo) : Prop :=
  byApexName_Less b a = false.

(** [sort.Sort(byApexName(l))] is Go's library sort, which "is not guaranteed
    to be stable": all that is known of its result is that it is the input
    rearranged in ascending order of [Less].  The development holds for every
    such sort. *)
Class SortInterface := {
  sort_Sort : list ApexInfo → list ApexInfo;
  sort_Sort_perm : ∀ l, sort_Sort l ≡ₚ l;
  sort_Sort_sorted : ∀ l, StronglySorted byApexName_le (sort_Sort l)
}.

(** [sort.Strings]: on strings the ascending rearrangement is unique. *)
Definition sort_Strings (l : list string) : list string :=
  merge_sort String.le l.

(** [sort.Search(n, f)]: binary search for the least index in [0, n) at
    which [f] holds, [n] when there is none. *)
Equations? Search_loop (f : nat → bool) (i j : nat) : nat by wf (j - i)%nat lt :=
  Search_loop f i j with decide (i < j)%nat => {
    | left _ =>
        let h := ((i + j) / 2)%nat in
        if negb (f h) then Search_loop f (h + 1)%nat j
        else Search_loop f i h
    | right _ => i }.
Proof.
  all: change (Nat.divmod (i + j) 1 0 1).1 with ((i + j) / 2)%nat in h; subst h.
  all: pose proof (Nat.Div0.div_lt_upper_bound (i + j) 2 j).
  all: pose proof (Nat.div_le_lower_bound (i + j) 2 i).
  all: lia.
Qed.

Definition sort_Search (n : nat) (f : nat → bool) : nat := Search_loop f 0%nat n.

(** [sort.SearchStrings(a, x)]: [Search(len(a), func(i) { a[i] >= x })]. *)
Definition sort_SearchStrings (a : list string) (x : string) : nat :=
  sort_Search (length a) (λ i, negb (String.ltb (a !!! i) x)).

(** ** Modules that take part in the APEX system *)

Record ApexProperties := mkApexProperties {
  Apex_available : list string;
  Info : ApexInfo;
  NotAvailableForPlatform : bool;
  UniqueApexVariationsForDeps : bool
}.

Record ApexModuleBase := mkApexModuleBase {
  apexProperties : ApexProperties;
  canHaveApexVariants : bool;
  apexVariations : list ApexInfo
}.

(** A module implementing [ApexModule]: its embedded base and the methods
    that concrete module types override. *)
Record ApexModule := mkApexModule {
  moduleName : string;
  apexModuleBase : ApexModuleBase;
  UniqueApexVariations : bool;
  (** [ShouldSupportSdkVersion(ctx, sdkVersion)]: [None] is Go's [nil],
      [Some reason] the error. *)
  ShouldSupportSdkVersion : ApiLevel → option string
}.

(** A module of the graph; [dep.(ApexModule)] succeeds on the second kind only. *)
Inductive Module :=
| OtherModule (name : string)
| AnApexModule (am : ApexModule).

Definition set_UniqueApexVariationsForDeps (b : bool) (m : ApexModuleBase) : ApexModuleBase :=
  {| apexProperties :=
       {| Apex_available := Apex_available (apexProperties m);
          Info := Info (apexProperties m);
          NotAvailableForPlatform := NotAvailableForPlatform (apexProperties m);
          UniqueApexVariationsForDeps := b |};
     canHaveApexVariants := canHaveApexVariants m;
     apexVariations := apexVariations m |}.

Definition set_apexVariations (vs : list ApexInfo) (m : ApexModuleBase) : ApexModuleBase :=
  {| apexProperties := apexProperties m;
     canHaveApexVariants := canHaveApexVariants m;
     apexVariations := vs |}.

(** *** [UpdateUniqueApexVariationsForDeps] *)

Definition collectApexes (infos : list ApexInfo) : list string :=
  foldl (λ ret info, ret ++ InApexes info) [] infos.

(** The search loop of [anyInSameApex], with its early [return true]. *)
Fixpoint anyInSameApex_loop (aApexes bApexes : list string) : bool :=
  match aApexes with
  | [] => false
  | aApex :: rest =>
      let index := sort_SearchStrings bApexes aApex in
      if (index <? length bApexes)%nat && String.eqb (bApexes !!! index) aApex
      then true
      else anyInSameApex_loop rest bApexes
  end.

Definition anyInSameApex (a b : list ApexInfo) : bool :=
  let aApexes := collectApexes a in
  let bApexes := sort_Strings (collectApexes b) in
  anyInSameApex_loop aApexes bApexes.

(** The callback handed to [mctx.VisitDirectDeps]. *)
Definition visitDirectDep (m : ApexModuleBase) (dep : Module) : ApexModuleBase :=
  match dep with
  | AnApexModule depApexModule =>
      if anyInSameApex (apexVariations (apexModuleBase depApexModule)) (apexVariations m)
         && (UniqueApexVariations depApexModule
             || UniqueApexVariationsForDeps (apexProperties (apexModuleBase depApexModule)))
      then set_UniqueApexVariationsForDeps true m
      else m
  | OtherModule _ => m
  end.

(** [directDeps] is what [mctx.VisitDirectDeps] enumerates. *)
Definition UpdateUniqueApexVariationsForDeps (m : ApexModuleBase) (directDeps : list Module)
  : ApexModuleBase :=
  foldl visitDirectDep m directDeps.

(** *** [BuildForApex] *)

(** The scan of [m.apexVariations] for the variation name; [true] is the
    early [return]. *)
Fixpoint hasApexVariation (vs : list ApexInfo) (apex : ApexInfo) : bool :=
  match vs with
  | [] => false
  | v :: vs' =>
      if String.eqb (ApexVariationName v) (ApexVariationName apex) then true
      else hasApexVariation vs' apex
  end.

Definition BuildForApex (m : ApexModuleBase) (apex : ApexInfo) : ApexModuleBase :=
  if hasApexVariation (apexVariations m) apex then m
  else set_apexVariations (apexVariations m ++ [apex]) m.

(** *** [ChooseSdkVersion] *)

Inductive ChooseSdkError :=
| ApiLevelError (msg : string)
    (* the error of [ApiLevelFromUser], handed on as it is *)
| NotFoundVersion (maxSdkVersion : ApiLevel) (versionList : list string).
    (* "not found a version(<=%s) in versionList: %v" *)

(** The loop [for i := range versionList], run over the indices [idxs]. *)
Fixpoint ChooseSdkVersion_loop (ctx : Context) (versionList : list string)
    (maxSdkVersion : ApiLevel) (idxs : list nat) : string + ChooseSdkError :=
  match idxs with
  | [] => inr (NotFoundVersion maxSdkVersion versionList)
  | i :: idxs' =>
      let version := versionList !!! (length versionList - i - 1)%nat in
      match ApiLevelFromUser ctx version with
      | inr err => inr (ApiLevelError err)
      | inl ver =>
          if LessThanOrEqualTo ver maxSdkVersion then inl version
          else ChooseSdkVersion_loop ctx versionList maxSdkVersion idxs'
      end
  end.

Definition ChooseSdkVersion (ctx : Context) (versionList : list string)
    (maxSdkVersion : ApiLevel) : string + ChooseSdkError :=
  ChooseSdkVersion_loop ctx versionList maxSdkVersion (seq 0 (length versionList)).

(** ** Merging of APEX variations *)

Definition set_ApexVariationName (n : string) (i : ApexInfo) : ApexInfo :=
  {| ApexVariationName := n; MinSdkVersionStr := MinSdkVersionStr i;
     Updatable := Updatable i; RequiredSdks := RequiredSdks i; InApexes := InApexes i |}.

Definition set_InApexes (l : list string) (i : ApexInfo) : ApexInfo :=
  {| ApexVariationName := ApexVariationName i; MinSdkVersionStr := MinSdkVersionStr i;
     Updatable := Updatable i; RequiredSdks := RequiredSdks i; InApexes := l |}.

Definition set_Updatable (u : bool) (i : ApexInfo) : ApexInfo :=
  {| ApexVariationName := ApexVariationName i; MinSdkVersionStr := MinSdkVersionStr i;
     Updatable := u; RequiredSdks := RequiredSdks i; InApexes := InApexes i |}.

(** Modelled from the spec: [CopyOf] of [android/util.go] is not part of the
    sources at hand; the list is "defensively copied", so that appending to
    the copy leaves the requirement it came from as it is. *)
Definition CopyOf (l : list string) : list string := l.

(** The local variables of [mergeApexVariations]. *)
Record mergeState := mkMergeState {
  merged : list ApexInfo;
  seen : gmap string nat;
  aliases : list (string * string)
}.

(** [merged[index].f = v]: Go panics when [index] is out of range. *)
Definition update_merged (index : nat) (f : ApexInfo → ApexInfo) (l : list ApexInfo)
  : option (list ApexInfo) :=
  e ← l !! index; Some (<[index := f e]> l).

(** One round of the loop of [mergeApexVariations]. *)
Definition mergeApexVariations_step (ctx : Context) (st : mergeState) (apexInfo : ApexInfo)
  : option mergeState :=
  let apexName := ApexVariationName apexInfo in
  mergedName_ ← mergedName ctx apexInfo;
  match seen st !! mergedName_ with
  | Some index =>
      merged1 ← update_merged index (λ e, set_InApexes (InApexes e ++ [apexName]) e) (merged st);
      merged2 ← update_merged index (λ e, set_Updatable (Updatable e || Updatable apexInfo) e) merged1;
      Some {| merged := merged2; seen := seen st;
              aliases := aliases st ++ [(apexName, mergedName_)] |}
  | None =>
      let seen' := <[mergedName_ := length (merged st)]> (seen st) in
      newName ← mergedName ctx apexInfo;
      let apexInfo1 := set_ApexVariationName newName apexInfo in
      let apexInfo2 := set_InApexes (CopyOf (InApexes apexInfo1)) apexInfo1 in
      Some {| merged := merged st ++ [apexInfo2]; seen := seen';
              aliases := aliases st ++ [(apexName, mergedName_)] |}
  end.

Fixpoint mergeApexVariations_loop (ctx : Context) (apexVariations : list ApexInfo)
    (st : mergeState) : option mergeState :=
  match apexVariations with
  | [] => Some st
  | apexInfo :: rest =>
      st' ← mergeApexVariations_step ctx st apexInfo;
      mergeApexVariations_loop ctx rest st'
  end.

(** [mergeApexVariations]: the merged requirements and the aliases; [None]
    when [mergedName] panics on a [MinSdkVersionStr] that is no API level.
    (The sort also reorders the slice of the caller; the result does not
    depend on that.) *)
Definition mergeApexVariations `{SortInterface} (ctx : Context) (apexVariations : list ApexInfo)
  : option (list ApexInfo * list (string * string)) :=
  st ← mergeApexVariations_loop ctx (sort_Sort apexVariations)
         {| merged := []; seen := ∅; aliases := [] |};
  Some (merged st, aliases st).

(** ** Creation of the variants *)

(** [checkApexAvailableProperty]: the names reported through
    [PropertyErrorf("apex_available", "%q is not a valid module name", n)]. *)
Fixpoint checkApexAvailableProperty (mctx : Context) (apex_available : list string)
  : list string :=
  match apex_available with
  | [] => []
  | n :: rest =>
      if String.eqb n AvailableToPlatform || String.eqb n AvailableToAnyApex
         || String.eqb n AvailableToGkiApex
      then checkApexAvailableProperty mctx rest
      else if negb (OtherModuleExists mctx n) && negb (AllowMissingDependencies mctx)
      then n :: checkApexAvailableProperty mctx rest
      else checkApexAvailableProperty mctx rest
  end.

(** A module returned by [mctx.CreateVariations]. *)
Record CreatedModule := mkCreatedModule {
  variation : string;
  variantProperties : ApexProperties;
  uninstallable : bool
}.

(** What [CreateApexVariations] asks of the mutator context. *)
Record MutatorCalls := mkMutatorCalls {
  propertyErrors : list string;
  defaultDependencyVariation : string;
  createdVariations : list string;
  aliasVariations : list (string * string)
}.

(** Modelled from the spec: [mctx.CreateVariations] belongs to the graph
    engine; "given an ordered sequence of variant labels, create one
    graph-node replica per label, returning handles in label order". *)
Definition CreateVariations (props : ApexProperties) (variations : list string)
  : list CreatedModule :=
  (λ v, {| variation := v; variantProperties := props; uninstallable := false |})
    <$> variations.

Definition MakeUninstallable (md : CreatedModule) : CreatedModule :=
  {| variation := variation md; variantProperties := variantProperties md;
     uninstallable := true |}.

Definition set_variant_Info (i : ApexInfo) (md : CreatedModule) : CreatedModule :=
  {| variation := variation md;
     variantProperties :=
       {| Apex_available := Apex_available (variantProperties md);
          Info := i;
          NotAvailableForPlatform := NotAvailableForPlatform (variantProperties md);
          UniqueApexVariationsForDeps := UniqueApexVariationsForDeps (variantProperties md) |};
     uninstallable := uninstallable md |}.

(** The body of [for i, mod := range modules]; [None] when [apexVariations[i-1]]
    is out of range. *)
Definition finishVariant (mctx : Context) (apexVariations : list ApexInfo)
    (i : nat) (md : CreatedModule) : option CreatedModule :=
  let platformVariation := (i =? 0)%nat in
  let md1 :=
    if platformVariation && negb (Host mctx)
       && negb (CheckAvailableForApex AvailableToPlatform
                  (Apex_available (variantProperties md)))
    then MakeUninstallable md else md in
  if negb platformVariation then
    info ← apexVariations !! (i - 1)%nat; Some (set_variant_Info info md1)
  else Some md1.

Fixpoint finishVariants (mctx : Context) (apexVariations : list ApexInfo)
    (i : nat) (modules : list CreatedModule) : option (list CreatedModule) :=
  match modules with
  | [] => Some []
  | md :: rest =>
      md' ← finishVariant mctx apexVariations i md;
      rest' ← finishVariants mctx apexVariations (S i) rest;
      Some (md' :: rest')
  end.

(** The requirements the variants are created from: merged unless the module
    asks for unique variations, then sorted by name. *)
Definition variationsToCreate `{SortInterface} (mctx : Context) (self : ApexModule)
  : option (list ApexInfo * list (string * string)) :=
  let m := apexModuleBase self in
  '(apexVariations, aliases) ←
    (if negb (UniqueApexVariations self)
        && negb (UniqueApexVariationsForDeps (apexProperties m))
     then mergeApexVariations mctx (apexVariations m)
     else Some (apexVariations m, []));
  Some (sort_Sort apexVariations, aliases).

(** [CreateApexVariations]: the modules it returns ([[]] is Go's [nil]) and its
    calls on the mutator context ([None] when there are no requirements). *)
Definition CreateApexVariations `{SortInterface} (mctx : Context) (self : ApexModule)
  : option (list CreatedModule * option MutatorCalls) :=
  let m := apexModuleBase self in
  if (0 <? length (apexVariations m))%nat then
    let errors := checkApexAvailableProperty mctx (Apex_available (apexProperties m)) in
    '(apexVariations, aliases) ← variationsToCreate mctx self;
    let variations := [""] ++ (ApexVariationName <$> apexVariations) in
    let defaultVariation := "" in
    let modules := CreateVariations (apexProperties m) variations in
    modules' ← finishVariants mctx apexVariations 0 modules;
    Some (modules',
          Some {| propertyErrors := errors;
                  defaultDependencyVariation := defaultVariation;
                  createdVariations := variations;
                  aliasVariations := aliases |})
  else Some ([], None).

(** ** The global map between modules and APEXes

    [apexNamesMap()["foo"]["bar"] == true]: module foo is directly depended on
    by APEX bar; [== false]: indirectly; absent: foo is not built for bar.
    The map is threaded through the operations; the mutex is not modelled. *)

(** [m[k]] on a Go [map[string]bool]: the zero value when [k] is absent. *)
Definition map_index (m : gmap string bool) (k : string) : bool :=
  default false (m !! k).

Definition UpdateApexDependency (names : gmap string (gmap string bool))
    (apex : ApexInfo) (moduleName : string) (directDep : bool)
  : gmap string (gmap string bool) :=
  let apexesForModule := default ∅ (names !! moduleName) in
  let apexesForModule1 :=
    <[ApexVariationName apex :=
        map_index apexesForModule (ApexVariationName apex) || directDep]> apexesForModule in
  let apexesForModule2 :=
    foldl (λ (afm : gmap string bool) apexName,
             <[apexName := map_index afm (ApexVariationName apex) || directDep]> afm)
          apexesForModule1 (InApexes apex) in
  <[moduleName := apexesForModule2]> names.

Definition ClearApexDependency (names : gmap string (gmap string bool))
  : gmap string (gmap string bool) := ∅.

Definition DirectlyInApex (names : gmap string (gmap string bool))
    (apexName moduleName : string) : bool :=
  match names !! moduleName with
  | Some apexNamesForModule => map_index apexNamesForModule apexName
  | None => false
  end.

Definition DirectlyInAllApexes (names : gmap string (gmap string bool))
    (apexNames : list string) (moduleName : string) : bool :=
  forallb (λ apexName, map_index (default ∅ (names !! moduleName)) apexName) apexNames.

Definition InAnyApex (names : gmap string (gmap string bool)) (moduleName : string) : bool :=
  match names !! moduleName with
  | Some apexNames => (0 <? size apexNames)%nat
  | None => false
  end.

(** ** The min_sdk_version check *)

Definition minSdkVersionAllowlist_apiMap : list (string * Z) := [
  ("adbd", 30);
  ("android.net.ipsec.ike", 30);
  ("androidx-constraintlayout_constraintlayout-solver", 30);
  ("androidx.annotation_annotation", 28);
  ("androidx.arch.core_core-common", 28);
  ("androidx.collection_collection", 28);
  ("androidx.lifecycle_lifecycle-common", 28);
  ("apache-commons-compress", 29);
  ("bouncycastle_ike_digests", 30);
  ("brotli-java", 29);
  ("captiveportal-lib", 28);
  ("flatbuffer_headers", 30);
  ("framework-permission", 30);
  ("framework-statsd", 30);
  ("gemmlowp_headers", 30);
  ("ike-internals", 30);
  ("kotlinx-coroutines-android", 28);
  ("kotlinx-coroutines-core", 28);
  ("libadb_crypto", 30);
  ("libadb_pairing_auth", 30);
  ("libadb_pairing_connection", 30);
  ("libadb_pairing_server", 30);
  ("libadb_protos", 30);
  ("libadb_tls_connection", 30);
  ("libadbconnection_client", 30);
  ("libadbconnection_server", 30);
  ("libadbd_core", 30);
  ("libadbd_services", 30);
  ("libadbd", 30);
  ("libapp_processes_protos_lite", 30);
  ("libasyncio", 30);
  ("libbrotli", 30);
  ("libbuildversion", 30);
  ("libcrypto_static", 30);
  ("libcrypto_utils", 30);
  ("libdiagnose_usb", 30);
  ("libeigen", 30);
  ("liblz4", 30);
  ("libmdnssd", 30);
  ("libneuralnetworks_common", 30);
  ("libneuralnetworks_headers", 30);
  ("libneuralnetworks", 30);
  ("libprocpartition", 30);
  ("libprotobuf-java-lite", 30);
  ("libprotoutil", 30);
  ("libqemu_pipe", 30);
  ("libstats_jni", 30);
  ("libstatslog_statsd", 30);
  ("libstatsmetadata", 30);
  ("libstatspull", 30);
  ("libstatssocket", 30);
  ("libsync", 30);
  ("libtextclassifier_hash_headers", 30);
  ("libtextclassifier_hash_static", 30);
  ("libtflite_kernel_utils", 30);
  ("libwatchdog", 29);
  ("libzstd", 30);
  ("metrics-constants-protos", 28);
  ("net-utils-framework-common", 29);
  ("permissioncontroller-statsd", 28);
  ("philox_random_headers", 30);
  ("philox_random", 30);
  ("service-permission", 30);
  ("service-statsd", 30);
  ("statsd-aidl-ndk_platform", 30);
  ("statsd", 30);
  ("tensorflow_headers", 30);
  ("xz-java", 29)
].

Definition minSdkVersionAllowlist : gmap string ApiLevel :=
  uncheckedFinalApiLevel <$> list_to_map minSdkVersionAllowlist_apiMap.

(** One edge of the payload walk, as the callback sees it. *)
Record PayloadDep := mkPayloadDep {
  (** [from.(DepIsInSameApex)]: [None] when [from] lacks the interface, else
      the answer of [am.DepIsInSameApex(ctx, to)]. *)
  fromDepIsInSameApex : option bool;
  to : ApexModule;
  externalDep : bool;
  (** [ctx.GetPathString(false)] while the edge is visited. *)
  pathString : string
}.

(** The arguments of [ctx.OtherModuleErrorf] in the callback. *)
Record ModuleError := mkModuleError {
  errModule : string;
  errMinSdkVersion : ApiLevel;
  errFor : string;
  errReason : string;
  errPath : string
}.

(** The callback of [CheckMinSdkVersion]: whether [to] is to be visited, and
    the error it reports, if any.  [forModule] is [ctx.ModuleName()]. *)
Definition checkMinSdkVersion_do (forModule : string) (minSdkVersion : ApiLevel)
    (dep : PayloadDep) : bool * option ModuleError :=
  if externalDep dep then (false, None)
  else
    match fromDepIsInSameApex dep with
    | Some false => (false, None)
    | _ =>
        match ShouldSupportSdkVersion (to dep) minSdkVersion with
        | Some err =>
            let toName := moduleName (to dep) in
            match minSdkVersionAllowlist !! toName with
            | Some ver =>
                if GreaterThan ver minSdkVersion then
                  (false, Some {| errModule := toName; errMinSdkVersion := minSdkVersion;
                                  errFor := forModule; errReason := err;
                                  errPath := pathString dep |})
                else (true, None)
            | None =>
                (false, Some {| errModule := toName; errMinSdkVersion := minSdkVersion;
                                errFor := forModule; errReason := err;
                                errPath := pathString dep |})
            end
        | None => (true, None)
        end
    end.

(** The payload of an updatable module: each edge with the edges below its
    target. *)
#[warnings="-register-all"]
Inductive PayloadDeps :=
| PayloadEdge (dep : PayloadDep) (below : list PayloadDeps).

(** Modelled from the spec: [WalkPayloadDeps] belongs to the updatable module;
    it "visits the transitive dependency graph, pruning at edges where the
    callback returns false".  The reports are collected in visiting order. *)
Fixpoint WalkPayloadDeps (do : PayloadDep → bool * option ModuleError)
    (errs : list ModuleError) (t : PayloadDeps) : list ModuleError :=
  match t with
  | PayloadEdge dep below =>
      let '(descend, report) := do dep in
      let errs' := errs ++ from_option (λ e, [e]) [] report in
      if descend then foldl (WalkPayloadDeps do) errs' below else errs'
  end.

Record UpdatableModule := mkUpdatableModule {
  updatableName : string;
  payloadDeps : list PayloadDeps
}.

(** [CheckMinSdkVersion]: the module errors it reports. *)
Definition CheckMinSdkVersion (m : UpdatableModule) (ctx : Context)
    (minSdkVersion : ApiLevel) : list ModuleError :=
  if Host ctx then []
  else if EmmaInstrument ctx || NativeCoverageEnabled ctx || ClangCoverageEnabled ctx then []
  else if IsCurrent minSdkVersion then []
  else foldl (WalkPayloadDeps (checkMinSdkVersion_do (updatableName m) minSdkVersion))
             [] (payloadDeps m).

(** ** Notions used in the statements *)

(** Two modules share an APEX when a name occurs in an [InApexes] list of
    both of their accumulated requirements. *)
Definition sharesApex (a b : list ApexInfo) : Prop :=
  ∃ x ia ib, ia ∈ a ∧ x ∈ InApexes ia ∧ ib ∈ b ∧ x ∈ InApexes ib.

(** A direct dependency that makes [m] need unique variations. *)
Definition needsUniqueFor (m : ApexModuleBase) (dep : Module) : Prop :=
  ∃ am, dep = AnApexModule am
    ∧ sharesApex (apexVariations (apexModuleBase am)) (apexVariations m)
    ∧ (UniqueApexVariations am = true
       ∨ UniqueApexVariationsForDeps (apexProperties (apexModuleBase am)) = true).

(** The scan of [ChooseSdkVersion] as the spec words it: the candidates are
    visited in the order given (the caller hands them over last first), the
    first one whose level is at most the ceiling is returned. *)
Fixpoint scanCandidates (ctx : Context) (maxSdkVersion : ApiLevel)
    (versionList : list string) (candidates : list string) : string + ChooseSdkError :=
  match candidates with
  | [] => inr (NotFoundVersion maxSdkVersion versionList)
  | version :: rest =>
      match ApiLevelFromUser ctx version with
      | inr err => inr (ApiLevelError err)
      | inl ver =>
          if LessThanOrEqualTo ver maxSdkVersion then inl version
          else scanCandidates ctx maxSdkVersion versionList rest
      end
  end.

(** The candidate parses to a level above the ceiling. *)
Definition aboveCeiling (ctx : Context) (maxSdkVersion : ApiLevel) (version : string) : Prop :=
  ∃ ver, ApiLevelFromUser ctx version = inl ver ∧ LessThanOrEqualTo ver maxSdkVersion = false.

(** The candidate parses to a level that is at most the ceiling. *)
Definition qualifies (ctx : Context) (maxSdkVersion : ApiLevel) (version : string) : Prop :=
  ∃ ver, ApiLevelFromUser ctx version = inl ver ∧ LessThanOrEqualTo ver maxSdkVersion = true.

(** The error the callback of [CheckMinSdkVersion] reports for an edge. *)
Definition violation (forModule : string) (minSdkVersion : ApiLevel) (dep : PayloadDep)
    (err : string) : ModuleError :=
  {| errModule := moduleName (to dep); errMinSdkVersion := minSdkVersion;
     errFor := forModule; errReason := err; errPath := pathString dep |}.

(** The name is on the allow-list with a level that is not greater than the
    required one. *)
Definition grandfathered (toName : string) (minSdkVersion : ApiLevel) : Prop :=
  ∃ ver, minSdkVersionAllowlist !! toName = Some ver
    ∧ GreaterThan ver minSdkVersion = false.

(** The requirements of [l] whose merged name is [k], in the order of [l]. *)
Definition mergeGroup (ctx : Context) (k : string) (l : list ApexInfo) : list ApexInfo :=
  filter (λ a, mergedName ctx a = Some k) l.

(** [e] is the merged entry of the requirements of [processed] that share its
    name as merged name: it is a copy of the first of them, [r], renamed;
    its [InApexes] are those of [r] followed by the variation names of the
    others, and it is updatable when one of them is. *)
Definition mergedFrom (ctx : Context) (processed : list ApexInfo) (e : ApexInfo) : Prop :=
  ∃ r rest,
    mergeGroup ctx (ApexVariationName e) processed = r :: rest
    ∧ MinSdkVersionStr e = MinSdkVersionStr r
    ∧ RequiredSdks e = RequiredSdks r
    ∧ InApexes e = InApexes r ++ (ApexVariationName <$> rest)
    ∧ Updatable e = existsb Updatable (r :: rest).

(** The alias recorded for a requirement: its name and its merged name. *)
Definition aliasOf (ctx : Context) (a : ApexInfo) (al : string * string) : Prop :=
  al.1 = ApexVariationName a ∧ mergedName ctx a = Some al.2.

(** What holds of the local variables of [mergeApexVariations] after the
    requirements [processed] have gone through the loop. *)
Record mergeInv (ctx : Context) (processed : list ApexInfo) (st : mergeState) : Prop :=
  mkMergeInv {
  inv_seen : ∀ k i,
    seen st !! k = Some i ↔ (ApexVariationName <$> merged st) !! i = Some k;
  inv_from : ∀ e, e ∈ merged st → mergedFrom ctx processed e;
  inv_covered : ∀ a, a ∈ processed →
    ∃ k, mergedName ctx a = Some k ∧ is_Some (seen st !! k);
  inv_aliases : Forall2 (aliasOf ctx) processed (aliases st);
  inv_length : (length (merged st) ≤ length processed)%nat
}.

(** A requirement as registered before merging: its [InApexes] is its own
    variation name. *)
Definition ownApexOnly (a : ApexInfo) : Prop :=
  InApexes a = [ApexVariationName a].

(** Every [MinSdkVersionStr] is a serialized API level. *)
Definition wellFormed (ctx : Context) (l : list ApexInfo) : Prop :=
  Forall (λ a, is_Some (MinSdkVersion ctx a)) l.

(** The module merges its variations: it neither has unique variations itself
    nor needs them for its dependencies. *)
Definition mergesVariations (self : ApexModule) : bool :=
  negb (UniqueApexVariations self)
  && negb (UniqueApexVariationsForDeps (apexProperties (apexModuleBase self))).

(** ** A context to run the functions in *)

Definition FutureApiLevel : ApiLevel :=
  {| value := "current"; number := FutureApiLevelInt; isPreview := true |}.

(** Modelled from the spec: [ApiLevelFromUser] is not part of the sources at
    hand; it "parses [a candidate] into a comparable API level".  Here
    [current] is the unfinalized level, a decimal numeral is the finalized
    level of that number, and anything else is an error. *)
Definition parseApiLevel (raw : string) : ApiLevel + string :=
  if String.eqb raw "current" then inl FutureApiLevel
  else match NilZero.int_of_string raw with
       | Some n => inl (uncheckedFinalApiLevel (Z.of_int n))
       | None => inr (raw +:+ " could not be parsed as an integer and is not a recognized codename")
       end.

(** A device build without coverage in which every module exists. *)
Definition deviceContext : Context :=
  {| ApiLevelFromUser := parseApiLevel;
     Host := false;
     EmmaInstrument := false;
     NativeCoverageEnabled := false;
     ClangCoverageEnabled := false;
     OtherModuleExists := λ _, true;
     AllowMissingDependencies := false |}.

(** ** Sample data *)

(** A requirement as it is registered before merging: the variation is named
    after its APEX and [InApexes] holds that one name. *)
Definition apexInfoOf (apexName minSdk : string) : ApexInfo :=
  {| ApexVariationName := apexName; MinSdkVersionStr := minSdk; Updatable := false;
     RequiredSdks := []; InApexes := [apexName] |}.

(** Three registered requirements: two APEXes built against [current] and
    one against level 29. *)
Definition sampleInfos : list ApexInfo :=
  [apexInfoOf "com.android.foo" "current";
   apexInfoOf "com.android.bar" "current";
   apexInfoOf "com.android.baz" "29"].

(** Two requirements with the same merged name, the second of which stands
    for two APEXes that are not its variation name. *)
Definition infosWithMembers : list ApexInfo :=
  [apexInfoOf "a" "current";
   {| ApexVariationName := "b"; MinSdkVersionStr := "current"; Updatable := false;
      RequiredSdks := []; InApexes := ["x"; "y"] |}].

(** Two requirements whose merged names come in the other order than their
    variation names. *)
Definition infosOutOfOrder : list ApexInfo :=
  [apexInfoOf "a" "30"; apexInfoOf "b" "29"].

(** A merged requirement that stands for the APEX [b1]. *)
Definition mergedInfoB1 : ApexInfo :=
  {| ApexVariationName := "apex10000"; MinSdkVersionStr := "current"; Updatable := false;
     RequiredSdks := []; InApexes := ["b1"] |}.

(** A requirement named [x] that stands for the APEX [b1]. *)
Definition infoXForB1 : ApexInfo :=
  {| ApexVariationName := "x"; MinSdkVersionStr := "current"; Updatable := false;
     RequiredSdks := []; InApexes := ["b1"] |}.

(** A module base with the given requirements. *)
Definition baseWith (vs : list ApexInfo) : ApexModuleBase :=
  {| apexProperties :=
       {| Apex_available := ["//apex_available:platform"; "//apex_available:anyapex"];
          Info := apexInfoOf "" "current";
          NotAvailableForPlatform := false; UniqueApexVariationsForDeps := false |};
     canHaveApexVariants := true;
     apexVariations := vs |}.

(** A library in the three sample APEXes. *)
Definition sampleModule : ApexModule :=
  {| moduleName := "libfoo"; apexModuleBase := baseWith sampleInfos;
     UniqueApexVariations := false; ShouldSupportSdkVersion := λ _, None |}.

(** A dependency with unique APEX variations that is in [com.android.bar]. *)
Definition uniqueDep : Module :=
  AnApexModule
    {| moduleName := "libbar";
       apexModuleBase := baseWith [apexInfoOf "com.android.bar" "current"];
       UniqueApexVariations := true; ShouldSupportSdkVersion := λ _, None |}.

(** A module that supports API levels from [minLevel] on. *)
Definition moduleSince (name : string) (minLevel : ApiLevel) : ApexModule :=
  {| moduleName := name;
     apexModuleBase :=
       {| apexProperties :=
            {| Apex_available := []; Info := apexInfoOf "" "current";
               NotAvailableForPlatform := false; UniqueApexVariationsForDeps := false |};
          canHaveApexVariants := true;
          apexVariations := [] |};
     UniqueApexVariations := false;
     ShouldSupportSdkVersion := λ sdkVersion,
       if GreaterThan minLevel sdkVersion then Some "newer min_sdk_version" else None |}.

(** An edge of the payload to [target], from a module of the same APEX. *)
Definition payloadDepTo (target : ApexModule) (external : bool) : PayloadDep :=
  {| fromDepIsInSameApex := Some true; to := target; externalDep := external;
     pathString := "myapex -> " +:+ moduleName target |}.

(** An updatable module whose payload is [adbd] (on the allow-list with 30),
    which in turn uses a library that supports level 31 only. *)
Definition apexWithAdbd : UpdatableModule :=
  {| updatableName := "myapex";
     payloadDeps :=
       [PayloadEdge (payloadDepTo (moduleSince "adbd" (uncheckedFinalApiLevel 30)) false)
          [PayloadEdge (payloadDepTo (moduleSince "libfoo" (uncheckedFinalApiLevel 31)) false)
             []]] |}.

(** An updatable module whose payload is [libwatchdog] (on the allow-list
    with 29), which supports level 31 only. *)
Definition apexWithWatchdog : UpdatableModule :=
  {| updatableName := "myapex";
     payloadDeps :=
       [PayloadEdge
          (payloadDepTo (moduleSince "libwatchdog" (uncheckedFinalApiLevel 31)) false)
          []] |}.

(** ** Further functions of [apex.go] and of [dexpreopt_check.go] *)

(** [IsForPlatform]: [m.ApexProperties.Info.ApexVariationName == ""]. *)
Definition IsForPlatform (p : ApexProperties) : bool :=
  String.eqb (ApexVariationName (Info p)) "".


(** [GetApexesForModule]: the keys of the inner map.  Go ranges over a map in
    no fixed order; the order of [map_to_list] stands for one of them. *)
Definition GetApexesForModule (names : gmap string (gmap string bool))
    (moduleName_ : string) : list string :=
  match names !! moduleName_ with
  | Some apexNames => (map_to_list apexNames).*1
  | None => []
  end.

(** [DirectlyInAnyApex]: [host] is [ctx.Host()]; the loop returns at the first
    key whose entry is [true]. *)
Definition DirectlyInAnyApex (host : bool) (names : gmap string (gmap string bool))
    (moduleName_ : string) : bool :=
  if host then false
  else
    match names !! moduleName_ with
    | Some apexNames => existsb (λ an, map_index apexNames an) (map_to_list apexNames).*1
    | None => false
    end.

(** What [ChooseSdkVersion] is documented to return: a candidate whose level
    is the highest among those at most the ceiling. *)
Definition highestQualifying (ctx : Context) (maxSdkVersion : ApiLevel)
    (versionList : list string) (version : string) : Prop :=
  version ∈ versionList
  ∧ ∃ ver, ApiLevelFromUser ctx version = inl ver
      ∧ LessThanOrEqualTo ver maxSdkVersion = true
      ∧ ∀ other ver', other ∈ versionList →
          ApiLevelFromUser ctx other = inl ver' →
          LessThanOrEqualTo ver' maxSdkVersion = true →
          LessThanOrEqualTo ver' ver = true.

(** The candidates all parse, to levels in ascending order. *)
Definition ascendingVersions (ctx : Context) (versionList : list string) : Prop :=
  ∃ levels, Forall2 (λ v lvl, ApiLevelFromUser ctx v = inl lvl) versionList levels
    ∧ StronglySorted (λ a b, LessThanOrEqualTo a b = true) levels.

(** The edges of a payload, at any depth. *)
Fixpoint payloadEdges (t : PayloadDeps) : list PayloadDep :=
  match t with
  | PayloadEdge dep below => dep :: mjoin (payloadEdges <$> below)
  end.

(** An edge for which [CheckMinSdkVersion] reports [e]. *)
Definition violates (forModule : string) (minSdkVersion : ApiLevel) (dep : PayloadDep)
    (e : ModuleError) : Prop :=
  externalDep dep = false
  ∧ fromDepIsInSameApex dep ≠ Some false
  ∧ ¬ grandfathered (moduleName (to dep)) minSdkVersion
  ∧ ∃ err, ShouldSupportSdkVersion (to dep) minSdkVersion = Some err
           ∧ e = violation forModule minSdkVersion dep err.

(** *** [dexpreopt_check.go] *)

Module Dexpreopt.

(** What [GenerateAndroidBuildActions] reads from the global configuration
    and from functions of other packages. *)
Record Config := mkConfig {
  DisablePreopt : bool;
  (** the arch types of [ctx.Config().Targets[android.Android]] *)
  Targets : list string;
  UnbundledBuild : bool;
  (** [dexpreopt.AllSystemServerJars(ctx, global).CopyOfJars()] *)
  SystemServerJars : list string;
  GetSystemServerDexLocation : string → string;
  ToOdexPath : string → string → string;
  ReplaceExtension : string → string → string;
  (** [PathForModuleInPartitionInstall(ctx, "", p).ToMakePath().String()] *)
  InstallPathString : string → string
}.

(** [strings.TrimPrefix(s, prefix)]. *)
Definition TrimPrefix (s pre : string) : string :=
  if String.prefix pre s then String.substring (String.length pre)
                                (String.length s - String.length pre) s
  else s.

Definition getInstallPath (cfg : Config) (location : string) : string :=
  InstallPathString cfg (TrimPrefix location "/").

(** The two artifacts recorded for a jar. *)
Definition jarArtifacts (cfg : Config) (jar : string) : list string :=
  let dexLocation := GetSystemServerDexLocation cfg jar in
  let odexLocation := ToOdexPath cfg dexLocation (Targets cfg !!! 0%nat) in
  let odexPath := getInstallPath cfg odexLocation in
  let vdexPath := getInstallPath cfg (ReplaceExtension cfg odexLocation "vdex") in
  [odexPath; vdexPath].

(** [GenerateAndroidBuildActions], on [m.artifactsByModuleName]. *)
Definition GenerateAndroidBuildActions (cfg : Config)
    (artifactsByModuleName : gmap string (list string)) : gmap string (list string) :=
  if DisablePreopt cfg || (length (Targets cfg) =? 0)%nat || UnbundledBuild cfg
  then artifactsByModuleName
  else foldl (λ (m : gmap string (list string)) jar, <[jar := jarArtifacts cfg jar]> m)
             artifactsByModuleName (SystemServerJars cfg).

(** [GenerateSingletonBuildActions], on [m.artifacts]; [allModules] are the
    names of the modules [ctx.VisitAllModules] visits. *)
Definition GenerateSingletonBuildActions
    (artifactsByModuleName : gmap string (list string)) (artifacts : list string)
    (allModules : list string) : list string :=
  foldl (λ arts name,
           match artifactsByModuleName !! name with
           | Some artifacts_ => arts ++ artifacts_
           | None => arts
           end)
        artifacts allModules.

End Dexpreopt.

(** * Properties *)

(** ** Strings and lists *)

Lemma InList_spec (s : string) (l : list string) : InList s l = true ↔ s ∈ l.
Proof.
  induction l as [|x l IH]; simpl.
  - split; [discriminate | intros H; inversion H].
  - destruct (String.eqb x s) eqn:E.
    + apply String.eqb_eq in E as ->. split; [intros _; left | done].
    + apply String.eqb_neq in E. rewrite IH. split; [by right |].
      intros H. inversion H; subst; [done | assumption].
Qed.

Lemma HasPrefix_spec (s pre : string) :
  HasPrefix s pre = true ↔ ∃ rest, s = pre +:+ rest.
Proof.
  unfold HasPrefix. revert s. induction pre as [|c pre IH]; intros s.
  - destruct s; simpl; (split; [eauto | done]).
  - destruct s as [|d s]; simpl.
    + split; [discriminate | intros [rest H]; discriminate].
    + destruct (ascii_dec c d) as [->|Hne].
      * rewrite IH. split; intros [rest H]; exists rest.
        -- by rewrite H.
        -- by injection H.
      * split; [discriminate | intros [rest H]; injection H; congruence].
Qed.

(** ** Availability *)

(** C8: [CheckAvailableForApex] is a total function that answers [true]
    exactly when the availability list is empty and the target is the platform
    sentinel, or the target is listed verbatim, or the target is not the
    platform sentinel and the any-APEX sentinel is listed, or the target has
    the prefix [com.android.gki.] and the GKI wildcard is listed; the four
    sample calls of the spec evaluate as stated. *)
Theorem CheckAvailableForApex_spec :
  (∀ (what : string) (apex_available : list string),
     CheckAvailableForApex what apex_available = true ↔
       (apex_available = [] ∧ what = AvailableToPlatform)
       ∨ what ∈ apex_available
       ∨ (what ≠ AvailableToPlatform ∧ AvailableToAnyApex ∈ apex_available)
       ∨ ((∃ rest, what = "com.android.gki." +:+ rest)
          ∧ AvailableToGkiApex ∈ apex_available))
  ∧ CheckAvailableForApex "bundle.x" [] = false
  ∧ CheckAvailableForApex "//apex_available:platform" [] = true
  ∧ CheckAvailableForApex "bundle.y" ["//apex_available:anyapex"] = true
  ∧ CheckAvailableForApex "com.android.gki.foo" ["com.android.gki.*"] = true.
Proof.
  split; [|repeat split; reflexivity].
  intros what av. unfold CheckAvailableForApex.
  destruct av as [|a av]; simpl length; cbn [Nat.eqb].
  - rewrite String.eqb_eq. split.
    + intros ->. by left.
    + intros [[_ H]|[H|[[_ H]|[_ H]]]]; [done | inversion H..].
  - rewrite !orb_true_iff, !andb_true_iff, negb_true_iff, !InList_spec,
      String.eqb_neq, HasPrefix_spec.
    split.
    + intros [[H|H]|H]; auto.
    + intros [[H _]|[H|[H|H]]]; [discriminate | auto..].
Qed.

(** ** Registration of requirements *)

Lemma hasApexVariation_spec (vs : list ApexInfo) (apex : ApexInfo) :
  hasApexVariation vs apex = true ↔
  ∃ v, v ∈ vs ∧ ApexVariationName v = ApexVariationName apex.
Proof.
  induction vs as [|w vs IH]; simpl.
  - split; [discriminate | intros (v & H & _); inversion H].
  - destruct (String.eqb _ _) eqn:E.
    + apply String.eqb_eq in E. split; [|done]. intros _. exists w. split; [left | done].
    + apply String.eqb_neq in E. rewrite IH. split.
      * intros (v & Hv & Hn). exists v. split; [by right | done].
      * intros (v & Hv & Hn). inversion Hv; subst; [done | eauto].
Qed.

Lemma hasApexVariation_false (vs : list ApexInfo) (apex : ApexInfo) :
  hasApexVariation vs apex = false →
  ApexVariationName apex ∉ ApexVariationName <$> vs.
Proof.
  intros Hf Hin. apply list_elem_of_fmap in Hin as (v & Hn & Hv).
  assert (hasApexVariation vs apex = true) as Ht; [|congruence].
  apply hasApexVariation_spec. eauto.
Qed.

Lemma BuildForApex_NoDup (m : ApexModuleBase) (apex : ApexInfo) :
  NoDup (ApexVariationName <$> apexVariations m) →
  NoDup (ApexVariationName <$> apexVariations (BuildForApex m apex)).
Proof.
  intros Hnd. unfold BuildForApex.
  destruct (hasApexVariation _ _) eqn:E; [done|]. simpl.
  rewrite map_app. apply NoDup_app. split; [done|]. split.
  - intros x Hx Hx'. apply list_elem_of_singleton in Hx'. subst x.
    by apply hasApexVariation_false in E.
  - apply NoDup_singleton.
Qed.

(** C10: registering a requirement whose variation name is already present
    leaves the module unchanged, whatever the other fields of the newcomer
    are, so that the accumulated requirements never hold a variation name
    twice: the property is kept by every registration and holds after any
    run of registrations on a module that starts without requirements. *)
Theorem BuildForApex_idempotent :
  (∀ (m : ApexModuleBase) (apex v : ApexInfo),
     v ∈ apexVariations m →
     ApexVariationName v = ApexVariationName apex →
     BuildForApex m apex = m)
  ∧ (∀ (m : ApexModuleBase) (apex : ApexInfo),
       NoDup (ApexVariationName <$> apexVariations m) →
       NoDup (ApexVariationName <$> apexVariations (BuildForApex m apex)))
  ∧ (∀ (m : ApexModuleBase) (apexes : list ApexInfo),
       apexVariations m = [] →
       NoDup (ApexVariationName <$> apexVariations (foldl BuildForApex m apexes))).
Proof.
  split; [|split].
  - intros m apex v Hv Hn. unfold BuildForApex.
    assert (hasApexVariation (apexVariations m) apex = true) as ->; [|done].
    apply hasApexVariation_spec. eauto.
  - apply BuildForApex_NoDup.
  - intros m apexes Hm.
    assert (NoDup (ApexVariationName <$> apexVariations m)) as Hnd
      by (rewrite Hm; constructor).
    clear Hm. revert m Hnd.
    induction apexes as [|a apexes IH]; intros m Hnd; simpl; [done|].
    apply IH. by apply BuildForApex_NoDup.
Qed.

(** ** Binary search and the shared-APEX test *)

Section Search.
Variable f : nat → bool.

(** The loop invariant of [sort.Search] for a predicate that, once true,
    stays true up to the upper bound. *)
Lemma Search_loop_spec (i j : nat) :
  (i ≤ j)%nat →
  (∀ a b, (i ≤ a)%nat → (a ≤ b)%nat → (b < j)%nat → f a = true → f b = true) →
  (i ≤ Search_loop f i j ≤ j)%nat
  ∧ (∀ k, (i ≤ k < Search_loop f i j)%nat → f k = false)
  ∧ (∀ k, (Search_loop f i j ≤ k < j)%nat → f k = true).
Proof.
  funelim (Search_loop f i j); intros Hij Hmono.
  - clear Heqcall Heq. rename H into IHhi, H0 into IHlo.
    assert (i ≤ (i + j) / 2 < j)%nat as Hh.
    { pose proof (Nat.Div0.div_lt_upper_bound (i + j) 2 j).
      pose proof (Nat.div_le_lower_bound (i + j) 2 i). lia. }
    set (h := ((i + j) / 2)%nat) in *.
    destruct (f h) eqn:Hfh; simpl.
    + destruct IHlo as (Hr & Hlo & Hhi); [lia | intros a b ????; apply (Hmono a b); [lia..|done] |].
      split; [lia|]. split; [done|].
      intros k Hk. destruct (decide (k < h)%nat); [apply Hhi; lia|].
      apply (Hmono h k); [lia..|done].
    + destruct IHhi as (Hr & Hlo & Hhi); [lia | intros a b ????; apply (Hmono a b); [lia..|done] |].
      split; [lia|]. split; [|done].
      intros k Hk. destruct (decide (h < k)%nat); [apply Hlo; lia|].
      destruct (f k) eqn:Hfk; [|done].
      rewrite <- Hfh. symmetry. apply (Hmono k h); [lia..|done].
  - split; [lia|]. split; intros; lia.
Qed.

End Search.

(** The order of Go's [<] on strings, through [String.le]. *)
Lemma ltb_false_le (s t : string) : String.ltb s t = false ↔ String.le t s.
Proof.
  unfold String.le, String.ltb, String.leb. rewrite (String.compare_antisym s t).
  destruct (String.compare t s); simpl; split; done.
Qed.

Lemma StronglySorted_lookup_le {A} (R : relation A) `{!Reflexive R} (l : list A)
    (i j : nat) (a b : A) :
  StronglySorted R l → (i ≤ j)%nat → l !! i = Some a → l !! j = Some b → R a b.
Proof.
  intros Hs. revert i j. induction Hs as [|x l Hs IH Hall]; intros i j Hij Hi Hj.
  - by rewrite lookup_nil in Hi.
  - destruct i as [|i], j as [|j]; simplify_eq/=; [done | | lia |].
    + rewrite Forall_forall in Hall. apply Hall. by eapply list_elem_of_lookup_2.
    + apply (IH i j); [lia | done..].
Qed.

Lemma sort_Strings_sorted (l : list string) : StronglySorted String.le (sort_Strings l).
Proof. apply StronglySorted_merge_sort; apply _. Qed.

Lemma sort_Strings_perm (l : list string) : sort_Strings l ≡ₚ l.
Proof. apply merge_sort_Permutation. Qed.

(** On a sorted slice, [sort.SearchStrings] finds every string that occurs. *)
Lemma sort_SearchStrings_found (b : list string) (x : string) :
  StronglySorted String.le b → x ∈ b →
  (sort_SearchStrings b x < length b)%nat ∧ b !!! sort_SearchStrings b x = x.
Proof.
  intros Hs Hx. unfold sort_SearchStrings, sort_Search.
  set (f := λ i : nat, negb (String.ltb (b !!! i) x)).
  destruct (Search_loop_spec f 0 (length b)) as (Hr & Hlo & Hhi); [lia | |].
  { intros i j _ Hij Hj. unfold f. rewrite !negb_true_iff, !ltb_false_le.
    intros Hle. etrans; [exact Hle|].
    apply (StronglySorted_lookup_le String.le b i j); [done | done | |];
      apply list_lookup_lookup_total_lt; lia. }
  apply list_elem_of_lookup in Hx as [p Hp].
  pose proof (lookup_lt_Some _ _ _ Hp) as Hplt.
  assert (f p = true) as Hfp.
  { unfold f. rewrite (list_lookup_total_correct _ _ _ Hp), negb_true_iff, ltb_false_le.
    done. }
  set (r := Search_loop f 0 (length b)) in *.
  assert (r ≤ p)%nat as Hrp.
  { destruct (decide (r ≤ p)%nat); [done|]. rewrite Hlo in Hfp; [done | lia]. }
  split; [lia|].
  assert (f r = true) as Hfr by (apply Hhi; lia).
  unfold f in Hfr. rewrite negb_true_iff, ltb_false_le in Hfr.
  apply (anti_symm String.le); [|done].
  apply (StronglySorted_lookup_le String.le b r p); [done | done | | done].
  apply list_lookup_lookup_total_lt. lia.
Qed.

Lemma anyInSameApex_loop_spec (aApexes bApexes : list string) :
  StronglySorted String.le bApexes →
  anyInSameApex_loop aApexes bApexes = true ↔ ∃ x, x ∈ aApexes ∧ x ∈ bApexes.
Proof.
  intros Hs. induction aApexes as [|a rest IH]; simpl.
  - split; [discriminate | intros (x & H & _); inversion H].
  - destruct (_ && _) eqn:E.
    + split; [|done]. intros _. exists a. split; [left|].
      apply andb_true_iff in E as [Hlt Heq].
      apply Nat.ltb_lt in Hlt. apply String.eqb_eq in Heq. rewrite <- Heq.
      apply list_elem_of_lookup_total_2. done.
    + rewrite IH. split.
      * intros (x & Hx & Hb). exists x. split; [by right | done].
      * intros (x & Hx & Hb). inversion Hx; subst; [|eauto].
        destruct (sort_SearchStrings_found bApexes a Hs Hb) as [Hlt Heq].
        apply Nat.ltb_lt in Hlt. apply String.eqb_eq in Heq.
        rewrite Hlt, Heq in E. done.
Qed.

Lemma collectApexes_spec (infos : list ApexInfo) (x : string) :
  x ∈ collectApexes infos ↔ ∃ info, info ∈ infos ∧ x ∈ InApexes info.
Proof.
  unfold collectApexes.
  assert (∀ acc, x ∈ foldl (λ ret info, ret ++ InApexes info) acc infos ↔
                 x ∈ acc ∨ ∃ info, info ∈ infos ∧ x ∈ InApexes info) as H.
  { induction infos as [|i infos IH]; intros acc; simpl.
    - split; [by left | intros [H|(? & H & _)]; [done | inversion H]].
    - rewrite IH, elem_of_app. split.
      + intros [[H|H]|(info & H1 & H2)]; [by left | right; exists i | right; exists info].
        * split; [left | done].
        * split; [by right | done].
      + intros [H|(info & H1 & H2)]; [by left; left|].
        inversion H1; subst; [left; by right | right; eauto]. }
  rewrite H. split; [intros [Hn|?]; [inversion Hn | done] | by right].
Qed.

Lemma anyInSameApex_spec (a b : list ApexInfo) :
  anyInSameApex a b = true ↔ sharesApex a b.
Proof.
  unfold anyInSameApex, sharesApex.
  rewrite anyInSameApex_loop_spec by apply sort_Strings_sorted.
  split.
  - intros (x & Ha & Hb). rewrite sort_Strings_perm in Hb.
    apply collectApexes_spec in Ha as (ia & ? & ?).
    apply collectApexes_spec in Hb as (ib & ? & ?). eauto 10.
  - intros (x & ia & ib & ? & ? & ? & ?). exists x.
    rewrite sort_Strings_perm, !collectApexes_spec. split; eauto.
Qed.

(** ** Propagation of the unique-variations flag *)

Lemma visitDirectDep_flag (m : ApexModuleBase) (dep : Module) :
  UniqueApexVariationsForDeps (apexProperties (visitDirectDep m dep)) = true ↔
  UniqueApexVariationsForDeps (apexProperties m) = true ∨ needsUniqueFor m dep.
Proof.
  unfold needsUniqueFor. destruct dep as [n|am]; simpl.
  - split; [by left | intros [?|(? & ? & _)]; done].
  - destruct (anyInSameApex _ _ && _) eqn:E; simpl.
    + split; [|done]. intros _. right. exists am.
      apply andb_true_iff in E as [E1 E2].
      apply anyInSameApex_spec in E1. apply orb_true_iff in E2. done.
    + split; [by left|]. intros [?|(am' & [= <-] & Hs & Hu)]; [done|].
      apply anyInSameApex_spec in Hs. apply orb_true_iff in Hu.
      rewrite Hs, Hu in E. done.
Qed.

Lemma visitDirectDep_rest (m : ApexModuleBase) (dep : Module) :
  apexVariations (visitDirectDep m dep) = apexVariations m
  ∧ canHaveApexVariants (visitDirectDep m dep) = canHaveApexVariants m
  ∧ Apex_available (apexProperties (visitDirectDep m dep)) = Apex_available (apexProperties m)
  ∧ Info (apexProperties (visitDirectDep m dep)) = Info (apexProperties m)
  ∧ NotAvailableForPlatform (apexProperties (visitDirectDep m dep))
    = NotAvailableForPlatform (apexProperties m).
Proof.
  destruct dep as [n|am]; simpl; [done|]. destruct (_ && _); done.
Qed.

(** C9: after [UpdateUniqueApexVariationsForDeps] the flag
    [UniqueApexVariationsForDeps] of the module is set exactly when it was set
    before or some direct dependency is an APEX module that shares a name of
    its accumulated [InApexes] lists with the module and either has unique
    APEX variations itself or carries the flag; a set flag stays set, and the
    accumulated requirements of the module are untouched. *)
Theorem UpdateUniqueApexVariationsForDeps_spec
    (m : ApexModuleBase) (directDeps : list Module) :
  (UniqueApexVariationsForDeps
     (apexProperties (UpdateUniqueApexVariationsForDeps m directDeps)) = true ↔
   UniqueApexVariationsForDeps (apexProperties m) = true
   ∨ ∃ dep, dep ∈ directDeps ∧ needsUniqueFor m dep)
  ∧ (UniqueApexVariationsForDeps (apexProperties m) = true →
     UniqueApexVariationsForDeps
       (apexProperties (UpdateUniqueApexVariationsForDeps m directDeps)) = true)
  ∧ apexVariations (UpdateUniqueApexVariationsForDeps m directDeps) = apexVariations m.
Proof.
  assert (∀ m0,
    apexVariations m0 = apexVariations m →
    (UniqueApexVariationsForDeps
       (apexProperties (UpdateUniqueApexVariationsForDeps m0 directDeps)) = true ↔
     UniqueApexVariationsForDeps (apexProperties m0) = true
     ∨ ∃ dep, dep ∈ directDeps ∧ needsUniqueFor m dep)
    ∧ apexVariations (UpdateUniqueApexVariationsForDeps m0 directDeps) = apexVariations m)
    as Hgen.
  { unfold UpdateUniqueApexVariationsForDeps.
    induction directDeps as [|dep deps IH]; intros m0 Hm0; simpl.
    - split; [|done]. split; [by left | intros [?|(? & H & _)]; [done | inversion H]].
    - destruct (visitDirectDep_rest m0 dep) as (Hv & _).
      destruct (IH (visitDirectDep m0 dep)) as [IHflag IHvars]; [congruence|].
      split; [|done]. rewrite IHflag, visitDirectDep_flag.
      assert (needsUniqueFor m0 dep ↔ needsUniqueFor m dep) as ->
        by (unfold needsUniqueFor; rewrite Hm0; done).
      split.
      + intros [[?|?]|(d & ? & ?)]; [by left | right; exists dep | right; exists d].
        * split; [left | done].
        * split; [by right | done].
      + intros [?|(d & Hd & ?)]; [by left; left|].
        inversion Hd; subst; [left; by right | right; eauto]. }
  destruct (Hgen m eq_refl) as [Hflag Hvars].
  split; [done|]. split; [|done]. intros H. apply Hflag. by left.
Qed.

(** ** The choice of an SDK version *)

Lemma ChooseSdkVersion_loop_scan (ctx : Context) (versionList : list string)
    (maxSdkVersion : ApiLevel) (idxs : list nat) :
  ChooseSdkVersion_loop ctx versionList maxSdkVersion idxs =
  scanCandidates ctx maxSdkVersion versionList
    ((λ i, versionList !!! (length versionList - i - 1)%nat) <$> idxs).
Proof.
  induction idxs as [|i idxs IH]; simpl; [done|].
  destruct (ApiLevelFromUser ctx _) as [ver|err]; [|done].
  destruct (LessThanOrEqualTo ver maxSdkVersion); [done | apply IH].
Qed.

Lemma last_to_first (versionList : list string) :
  (λ i, versionList !!! (length versionList - i - 1)%nat) <$> seq 0 (length versionList)
  = reverse versionList.
Proof.
  apply list_eq. intros i. rewrite list_lookup_fmap.
  destruct (decide (i < length versionList)%nat) as [Hi|Hi].
  - rewrite lookup_seq_lt, reverse_lookup by done. simpl.
    replace (length versionList - i - 1)%nat with (length versionList - S i)%nat by lia.
    symmetry. apply list_lookup_lookup_total_lt. lia.
  - rewrite lookup_seq_ge by lia. simpl. symmetry.
    apply lookup_ge_None. rewrite length_reverse. lia.
Qed.

(** The loop over the indices visits the candidates from the last to the first. *)
Lemma ChooseSdkVersion_scan (ctx : Context) (versionList : list string)
    (maxSdkVersion : ApiLevel) :
  ChooseSdkVersion ctx versionList maxSdkVersion =
  scanCandidates ctx maxSdkVersion versionList (reverse versionList).
Proof.
  unfold ChooseSdkVersion. by rewrite ChooseSdkVersion_loop_scan, last_to_first.
Qed.

Lemma scanCandidates_inl (ctx : Context) (maxSdkVersion : ApiLevel)
    (versionList candidates : list string) (version : string) :
  scanCandidates ctx maxSdkVersion versionList candidates = inl version ↔
  ∃ before after, candidates = before ++ version :: after
    ∧ Forall (aboveCeiling ctx maxSdkVersion) before
    ∧ qualifies ctx maxSdkVersion version.
Proof.
  unfold aboveCeiling, qualifies.
  induction candidates as [|c cs IH]; simpl.
  - split; [done | intros ([|??] & ? & ? & _); done].
  - destruct (ApiLevelFromUser ctx c) as [ver|err] eqn:Hc.
    + destruct (LessThanOrEqualTo ver maxSdkVersion) eqn:Hle.
      * split.
        -- intros [= <-]. exists [], cs. eauto.
        -- intros ([|b before] & after & Heq & Hall & _); simplify_eq/=; [done|].
           apply Forall_cons in Hall as [(ver' & ? & ?) _]. congruence.
      * rewrite IH. split.
        -- intros (before & after & -> & Hall & Hq). exists (c :: before), after.
           split; [done|]. split; [|done]. constructor; eauto.
        -- intros ([|b before] & after & Heq & Hall & Hq); simplify_eq/=.
           ++ destruct Hq as (ver' & ? & ?). congruence.
           ++ apply Forall_cons in Hall as [_ Hall]. eauto.
    + split; [done|].
      intros ([|b before] & after & Heq & Hall & Hq); simplify_eq/=.
      * destruct Hq as (ver' & ? & ?). congruence.
      * apply Forall_cons in Hall as [(ver' & ? & ?) _]. congruence.
Qed.

Lemma scanCandidates_notFound (ctx : Context) (maxSdkVersion : ApiLevel)
    (versionList candidates : list string) (lvl : ApiLevel) (l : list string) :
  scanCandidates ctx maxSdkVersion versionList candidates = inr (NotFoundVersion lvl l) ↔
  lvl = maxSdkVersion ∧ l = versionList ∧ Forall (aboveCeiling ctx maxSdkVersion) candidates.
Proof.
  unfold aboveCeiling.
  induction candidates as [|c cs IH]; simpl.
  - split; [intros [= <- <-]; done | intros (-> & -> & _); done].
  - destruct (ApiLevelFromUser ctx c) as [ver|err] eqn:Hc.
    + destruct (LessThanOrEqualTo ver maxSdkVersion) eqn:Hle.
      * split; [done|]. intros (_ & _ & Hall).
        apply Forall_cons in Hall as [(ver' & ? & ?) _]. congruence.
      * rewrite IH. split.
        -- intros (-> & -> & Hall). repeat split. constructor; eauto.
        -- intros (-> & -> & Hall). apply Forall_cons in Hall as [_ Hall]. done.
    + split; [done|]. intros (_ & _ & Hall).
      apply Forall_cons in Hall as [(ver' & ? & ?) _]. congruence.
Qed.

Lemma scanCandidates_parseError (ctx : Context) (maxSdkVersion : ApiLevel)
    (versionList candidates : list string) (err : string) :
  scanCandidates ctx maxSdkVersion versionList candidates = inr (ApiLevelError err) ↔
  ∃ before version after, candidates = before ++ version :: after
    ∧ Forall (aboveCeiling ctx maxSdkVersion) before
    ∧ ApiLevelFromUser ctx version = inr err.
Proof.
  unfold aboveCeiling.
  induction candidates as [|c cs IH]; simpl.
  - split; [done | intros ([|??] & ? & ? & ? & _); done].
  - destruct (ApiLevelFromUser ctx c) as [ver|err'] eqn:Hc.
    + destruct (LessThanOrEqualTo ver maxSdkVersion) eqn:Hle.
      * split; [done|].
        intros ([|b before] & v & after & Heq & Hall & Hv); simplify_eq/=; [congruence|].
        apply Forall_cons in Hall as [(ver' & ? & ?) _]. congruence.
      * rewrite IH. split.
        -- intros (before & v & after & -> & Hall & Hv). exists (c :: before), v, after.
           split; [done|]. split; [|done]. constructor; eauto.
        -- intros ([|b before] & v & after & Heq & Hall & Hv); simplify_eq/=; [congruence|].
           apply Forall_cons in Hall as [_ Hall]. eauto 10.
    + split.
      * intros [= <-]. exists [], c, cs. eauto.
      * intros ([|b before] & v & after & Heq & Hall & Hv); simplify_eq/=; [congruence|].
        apply Forall_cons in Hall as [(ver' & ? & ?) _]. congruence.
Qed.

Lemma reverse_split {A} (l before after : list A) (x : A) :
  reverse l = before ++ x :: after ↔ l = reverse after ++ x :: reverse before.
Proof.
  split; intros H.
  - rewrite <- (reverse_involutive l), H, reverse_app, reverse_cons, <- app_assoc. done.
  - rewrite H, reverse_app, reverse_cons, !reverse_involutive, <- app_assoc. done.
Qed.

Lemma Forall_reverse {A} (P : A → Prop) (l : list A) : Forall P (reverse l) ↔ Forall P l.
Proof. rewrite !Forall_forall. by setoid_rewrite elem_of_reverse. Qed.

(** C4 (as the code has it): [ChooseSdkVersion] returns a candidate exactly
    when that candidate parses to a level at most the ceiling and every
    candidate after it in the list parses to a level above the ceiling, that
    is, it returns the first qualifying candidate met when going from the last
    element to the first.  It fails with the not-found error, which carries the
    ceiling and the whole candidate list, exactly when every candidate parses
    to a level above the ceiling; and it fails with the error of the parser
    exactly when a candidate that does not parse is met before any qualifying
    one.  On ["1","5","9","11"] with ceiling 10 it returns "9", on ["1","5"]
    with ceiling 0 it fails with the not-found error. *)
Theorem ChooseSdkVersion_spec (ctx : Context) (versionList : list string)
    (maxSdkVersion : ApiLevel) :
  (∀ version,
     ChooseSdkVersion ctx versionList maxSdkVersion = inl version ↔
     ∃ before after, versionList = before ++ version :: after
       ∧ qualifies ctx maxSdkVersion version
       ∧ Forall (aboveCeiling ctx maxSdkVersion) after)
  ∧ (∀ lvl l,
       ChooseSdkVersion ctx versionList maxSdkVersion = inr (NotFoundVersion lvl l) ↔
       lvl = maxSdkVersion ∧ l = versionList
       ∧ Forall (aboveCeiling ctx maxSdkVersion) versionList)
  ∧ (∀ err,
       ChooseSdkVersion ctx versionList maxSdkVersion = inr (ApiLevelError err) ↔
       ∃ before version after, versionList = before ++ version :: after
         ∧ ApiLevelFromUser ctx version = inr err
         ∧ Forall (aboveCeiling ctx maxSdkVersion) after)
  ∧ ChooseSdkVersion deviceContext ["1"; "5"; "9"; "11"] (uncheckedFinalApiLevel 10)
    = inl "9"
  ∧ ChooseSdkVersion deviceContext ["1"; "5"] (uncheckedFinalApiLevel 0)
    = inr (NotFoundVersion (uncheckedFinalApiLevel 0) ["1"; "5"]).
Proof.
  rewrite ChooseSdkVersion_scan.
  split; [|split; [|split; [|split; reflexivity]]].
  - intros version. rewrite scanCandidates_inl. split.
    + intros (b & a & Hrev & Hall & Hq). apply reverse_split in Hrev.
      exists (reverse a), (reverse b). by rewrite Forall_reverse.
    + intros (b & a & -> & Hq & Hall). exists (reverse a), (reverse b).
      rewrite reverse_split, !reverse_involutive, Forall_reverse. done.
  - intros lvl l. by rewrite scanCandidates_notFound, Forall_reverse.
  - intros err. rewrite scanCandidates_parseError. split.
    + intros (b & v & a & Hrev & Hall & Hv). apply reverse_split in Hrev.
      exists (reverse a), v, (reverse b). by rewrite Forall_reverse.
    + intros (b & v & a & -> & Hv & Hall). exists (reverse a), v, (reverse b).
      rewrite reverse_split, !reverse_involutive, Forall_reverse. done.
Qed.

(** C4, against the claim as stated: a candidate that does not parse does not
    make the call fail when a later candidate qualifies, and when such a
    candidate is met the failure is the error of the parser, not the
    not-found error with the candidate list and the ceiling. *)
Lemma ChooseSdkVersion_parse_failure_counterexample :
  ApiLevelFromUser deviceContext "bogus"
    = inr "bogus could not be parsed as an integer and is not a recognized codename"
  ∧ ChooseSdkVersion deviceContext ["bogus"; "5"] (uncheckedFinalApiLevel 10) = inl "5"
  ∧ ChooseSdkVersion deviceContext ["5"; "bogus"] (uncheckedFinalApiLevel 10)
    = inr (ApiLevelError
             "bogus could not be parsed as an integer and is not a recognized codename")
  ∧ ChooseSdkVersion deviceContext ["5"; "bogus"] (uncheckedFinalApiLevel 10)
    ≠ inr (NotFoundVersion (uncheckedFinalApiLevel 10) ["5"; "bogus"]).
Proof. repeat split; [reflexivity..|discriminate]. Qed.

(** ** The registry of modules and APEXes *)

(** X15: for a requirement as registered before merging, whose [InApexes] is
    its own variation name, the update is the logical or on the entry of that
    name and leaves every other entry as it is. *)
Lemma UpdateApexDependency_own (names : gmap string (gmap string bool))
    (apex : ApexInfo) (moduleName_ : string) (directDep : bool)
    (apexName otherModule : string) :
  ownApexOnly apex →
  DirectlyInApex (UpdateApexDependency names apex moduleName_ directDep)
    apexName otherModule
  = if decide (otherModule = moduleName_ ∧ apexName = ApexVariationName apex)
    then DirectlyInApex names apexName otherModule || directDep
    else DirectlyInApex names apexName otherModule.
Proof.
  intros Hown. unfold UpdateApexDependency, DirectlyInApex. rewrite Hown. simpl.
  unfold map_index at 1. rewrite lookup_insert_eq. simpl.
  rewrite insert_insert_eq, <- orb_assoc, orb_diag.
  destruct (decide (otherModule = moduleName_)) as [->|Hm].
  - rewrite lookup_insert_eq. unfold map_index at 1.
    destruct (decide (apexName = ApexVariationName apex)) as [->|Ha].
    + rewrite lookup_insert_eq, decide_True by done. simpl.
      by destruct (names !! moduleName_).
    + rewrite lookup_insert_ne by congruence.
      rewrite decide_False by (intros [_ ?]; congruence).
      by destruct (names !! moduleName_).
  - rewrite lookup_insert_ne by congruence.
    rewrite decide_False by (intros [? _]; congruence). done.
Qed.

(** C2 (the code at the failing input): module [m] is recorded as a direct
    member of APEX [b1]; a later indirect record through a requirement whose
    own variation name differs from [b1] but whose [InApexes] holds [b1] turns
    the entry back to [false], because the loop over [InApexes] reads the
    entry of the variation name instead of the entry it writes.  For the same
    reason two records give different end states in the two orders. *)
Theorem UpdateApexDependency_downgrades :
  let names1 := UpdateApexDependency ∅ (apexInfoOf "b1" "current") "m" true in
  let names2 := UpdateApexDependency names1 mergedInfoB1 "m" false in
  DirectlyInApex names1 "b1" "m" = true
  ∧ DirectlyInApex names2 "b1" "m" = false
  ∧ DirectlyInApex
      (UpdateApexDependency
         (UpdateApexDependency ∅ infoXForB1 "m" false)
         (apexInfoOf "b1" "current") "m" true) "b1" "m" = true
  ∧ DirectlyInApex
      (UpdateApexDependency
         (UpdateApexDependency ∅ (apexInfoOf "b1" "current") "m" true)
         infoXForB1 "m" false) "b1" "m" = false.
Proof. vm_compute. done. Qed.

(** ** The min_sdk_version check *)

Lemma checkMinSdkVersion_do_external (forModule : string) (minSdkVersion : ApiLevel)
    (dep : PayloadDep) :
  externalDep dep = true →
  checkMinSdkVersion_do forModule minSdkVersion dep = (false, None).
Proof. unfold checkMinSdkVersion_do. by intros ->. Qed.

Lemma checkMinSdkVersion_do_unsupported (forModule : string) (minSdkVersion : ApiLevel)
    (dep : PayloadDep) (err : string) :
  externalDep dep = false →
  fromDepIsInSameApex dep ≠ Some false →
  ShouldSupportSdkVersion (to dep) minSdkVersion = Some err →
  (grandfathered (moduleName (to dep)) minSdkVersion →
   checkMinSdkVersion_do forModule minSdkVersion dep = (true, None))
  ∧ (¬ grandfathered (moduleName (to dep)) minSdkVersion →
     checkMinSdkVersion_do forModule minSdkVersion dep
     = (false, Some (violation forModule minSdkVersion dep err))).
Proof.
  intros Hext Hsame Herr. unfold checkMinSdkVersion_do, grandfathered, violation.
  rewrite Hext, Herr.
  assert (∀ X (a b : X), match fromDepIsInSameApex dep with
                         | Some false => a | _ => b end = b) as ->.
  { intros. destruct (fromDepIsInSameApex dep) as [[]|]; done. }
  destruct (minSdkVersionAllowlist !! moduleName (to dep)) as [ver|] eqn:Hal.
  - destruct (GreaterThan ver minSdkVersion) eqn:Hgt.
    + split; [intros (v & [= <-] & ?); congruence | done].
    + split; [done|]. intros []. eauto.
  - split; [intros (v & ? & _); done | done].
Qed.

(** C5 (as the code has it): on a device build without coverage and with a
    level that is not [current], [CheckMinSdkVersion] is the walk of the
    payload with its callback; there an external edge is not descended past
    and reports nothing, and an edge inside the APEX whose target does not
    support the level reports exactly one error, naming the target, the
    level, the module checked, the reason and the dependency path, and is not
    descended past, unless the name of the target is on the allow-list with a
    level that is not greater than the required one, in which case nothing is
    reported and the walk goes on below the edge. *)
Theorem CheckMinSdkVersion_walk (m : UpdatableModule) (ctx : Context)
    (minSdkVersion : ApiLevel) :
  Host ctx = false →
  EmmaInstrument ctx = false →
  NativeCoverageEnabled ctx = false →
  ClangCoverageEnabled ctx = false →
  IsCurrent minSdkVersion = false →
  let do := checkMinSdkVersion_do (updatableName m) minSdkVersion in
  CheckMinSdkVersion m ctx minSdkVersion = foldl (WalkPayloadDeps do) [] (payloadDeps m)
  ∧ ∀ (errs : list ModuleError) (dep : PayloadDep) (below : list PayloadDeps),
      (externalDep dep = true →
       WalkPayloadDeps do errs (PayloadEdge dep below) = errs)
      ∧ (∀ err,
           externalDep dep = false →
           fromDepIsInSameApex dep ≠ Some false →
           ShouldSupportSdkVersion (to dep) minSdkVersion = Some err →
           (grandfathered (moduleName (to dep)) minSdkVersion →
            WalkPayloadDeps do errs (PayloadEdge dep below)
            = foldl (WalkPayloadDeps do) errs below)
           ∧ (¬ grandfathered (moduleName (to dep)) minSdkVersion →
              WalkPayloadDeps do errs (PayloadEdge dep below)
              = errs ++ [violation (updatableName m) minSdkVersion dep err])).
Proof.
  intros Hhost Hemma Hnative Hclang Hcur do. split.
  - unfold CheckMinSdkVersion. by rewrite Hhost, Hemma, Hnative, Hclang, Hcur.
  - intros errs dep below. split.
    + intros Hext. simpl. unfold do.
      rewrite checkMinSdkVersion_do_external by done. simpl. by rewrite app_nil_r.
    + intros err Hext Hsame Herr.
      destruct (checkMinSdkVersion_do_unsupported (updatableName m) minSdkVersion
                  dep err Hext Hsame Herr) as [Hgf Hrep].
      split; intros H; simpl; unfold do.
      * rewrite Hgf by done. simpl. by rewrite app_nil_r.
      * rewrite Hrep by done. done.
Qed.

(** C5, against the claim as stated: [adbd] is on the allow-list with level
    30, which is at least the required level 29, and yet the edge to it is
    reported and not descended past (the library below it is never looked
    at).  The other way round, [libwatchdog] is on the list with level 29,
    below the required level 30 that it does not support, and nothing is
    reported for it. *)
Lemma CheckMinSdkVersion_allowlist_counterexample :
  minSdkVersionAllowlist !! "adbd" = Some (uncheckedFinalApiLevel 30)
  ∧ GreaterThanOrEqualTo (uncheckedFinalApiLevel 30) (uncheckedFinalApiLevel 29) = true
  ∧ ShouldSupportSdkVersion (moduleSince "adbd" (uncheckedFinalApiLevel 30))
      (uncheckedFinalApiLevel 29) = Some "newer min_sdk_version"
  ∧ CheckMinSdkVersion apexWithAdbd deviceContext (uncheckedFinalApiLevel 29)
    = [ {| errModule := "adbd"; errMinSdkVersion := uncheckedFinalApiLevel 29;
           errFor := "myapex"; errReason := "newer min_sdk_version";
           errPath := "myapex -> adbd" |} ]
  ∧ minSdkVersionAllowlist !! "libwatchdog" = Some (uncheckedFinalApiLevel 29)
  ∧ GreaterThanOrEqualTo (uncheckedFinalApiLevel 29) (uncheckedFinalApiLevel 30) = false
  ∧ ShouldSupportSdkVersion (moduleSince "libwatchdog" (uncheckedFinalApiLevel 31))
      (uncheckedFinalApiLevel 30) = Some "newer min_sdk_version"
  ∧ CheckMinSdkVersion apexWithWatchdog deviceContext (uncheckedFinalApiLevel 30) = [].
Proof. vm_compute. done. Qed.

(** ** Merging *)

Section Merge.
Variable ctx : Context.

Lemma mergedName_is_Some (a : ApexInfo) :
  is_Some (mergedName ctx a) ↔ is_Some (MinSdkVersion ctx a).
Proof.
  unfold mergedName. destruct (MinSdkVersion ctx a); simpl.
  - split; eauto.
  - split; intros [? ?]; done.
Qed.

(** The merged name depends on the API level and the required SDKs only. *)
Lemma mergedName_ext (a b : ApexInfo) :
  MinSdkVersionStr a = MinSdkVersionStr b → RequiredSdks a = RequiredSdks b →
  mergedName ctx a = mergedName ctx b.
Proof. unfold mergedName, MinSdkVersion. by intros -> ->. Qed.

Lemma mergeGroup_snoc (k : string) (l : list ApexInfo) (a : ApexInfo) :
  mergeGroup ctx k (l ++ [a]) =
  mergeGroup ctx k l ++ (if decide (mergedName ctx a = Some k) then [a] else []).
Proof.
  unfold mergeGroup. rewrite filter_app. f_equal.
Qed.

Lemma mergeGroup_nil (k : string) (l : list ApexInfo) :
  mergeGroup ctx k l = [] ↔ ∀ a, a ∈ l → mergedName ctx a ≠ Some k.
Proof.
  unfold mergeGroup. induction l as [|b l IH].
  - split; [intros _ a Ha; inversion Ha | done].
  - rewrite filter_cons. destruct (decide _) as [Hb|Hb].
    + split; [done|]. intros H. destruct (H b); [left | done].
    + rewrite IH. split.
      * intros H a Ha. inversion Ha; subst; eauto.
      * intros H a Ha. apply H. by right.
Qed.

Lemma merged_names_inj (processed : list ApexInfo) (st : mergeState)
    (i j : nat) (e e' : ApexInfo) :
  mergeInv ctx processed st →
  merged st !! i = Some e → merged st !! j = Some e' →
  ApexVariationName e = ApexVariationName e' → i = j.
Proof.
  intros Hinv Hi Hj Hn.
  assert (seen st !! ApexVariationName e = Some i) as H1.
  { apply (inv_seen _ _ _ Hinv). rewrite list_lookup_fmap, Hi. done. }
  assert (seen st !! ApexVariationName e = Some j) as H2.
  { apply (inv_seen _ _ _ Hinv). rewrite list_lookup_fmap, Hj, Hn. done. }
  congruence.
Qed.

Lemma merged_names_NoDup (processed : list ApexInfo) (st : mergeState) :
  mergeInv ctx processed st → NoDup (ApexVariationName <$> merged st).
Proof.
  intros Hinv. apply NoDup_alt. intros i j n Hi Hj.
  apply list_lookup_fmap_Some in Hi as (e & -> & He).
  apply list_lookup_fmap_Some in Hj as (e' & Hn & He').
  eapply merged_names_inj; eauto.
Qed.

Lemma mergeInv_init : mergeInv ctx [] {| merged := []; seen := ∅; aliases := [] |}.
Proof.
  split; simpl.
  - intros k i. rewrite lookup_empty. done.
  - intros e H. inversion H.
  - intros a H. inversion H.
  - constructor.
  - done.
Qed.

(** The round of the loop when the merged name has been seen. *)
Lemma merge_step_seen (st : mergeState) (a e : ApexInfo) (k : string) (i : nat) :
  mergedName ctx a = Some k →
  seen st !! k = Some i →
  merged st !! i = Some e →
  mergeApexVariations_step ctx st a =
  Some {| merged :=
            <[i := set_Updatable (Updatable e || Updatable a)
                     (set_InApexes (InApexes e ++ [ApexVariationName a]) e)]> (merged st);
          seen := seen st;
          aliases := aliases st ++ [(ApexVariationName a, k)] |}.
Proof.
  intros Hk Hs He. unfold mergeApexVariations_step, update_merged.
  rewrite Hk. simpl. rewrite Hs, He. simpl.
  rewrite list_lookup_insert_eq by (by eapply lookup_lt_Some). simpl.
  by rewrite list_insert_insert_eq.
Qed.

(** The round of the loop when the merged name is new. *)
Lemma merge_step_new (st : mergeState) (a : ApexInfo) (k : string) :
  mergedName ctx a = Some k →
  seen st !! k = None →
  mergeApexVariations_step ctx st a =
  Some {| merged := merged st ++ [set_InApexes (InApexes a) (set_ApexVariationName k a)];
          seen := <[k := length (merged st)]> (seen st);
          aliases := aliases st ++ [(ApexVariationName a, k)] |}.
Proof.
  intros Hk Hs. unfold mergeApexVariations_step. rewrite Hk. simpl. by rewrite Hs.
Qed.

Lemma merge_step_total (processed : list ApexInfo) (st : mergeState) (a : ApexInfo) :
  mergeInv ctx processed st →
  is_Some (mergedName ctx a) →
  is_Some (mergeApexVariations_step ctx st a).
Proof.
  intros Hinv [k Hk]. destruct (seen st !! k) as [i|] eqn:Hs.
  - pose proof (proj1 (inv_seen _ _ _ Hinv k i) Hs) as Hi.
    apply list_lookup_fmap_Some in Hi as (e & _ & He).
    erewrite merge_step_seen; eauto.
  - erewrite merge_step_new; eauto.
Qed.

Lemma merge_step_parses (st st' : mergeState) (a : ApexInfo) :
  mergeApexVariations_step ctx st a = Some st' → is_Some (mergedName ctx a).
Proof.
  unfold mergeApexVariations_step. destruct (mergedName ctx a); [eauto | done].
Qed.

Lemma mergedFrom_snoc_other (processed : list ApexInfo) (a e : ApexInfo) :
  mergedName ctx a ≠ Some (ApexVariationName e) →
  mergedFrom ctx processed e → mergedFrom ctx (processed ++ [a]) e.
Proof.
  intros Hne (r & rest & Hg & ?). exists r, rest.
  rewrite mergeGroup_snoc, decide_False, app_nil_r by done. done.
Qed.

Lemma mergeInv_step_seen (processed : list ApexInfo) (st : mergeState)
    (a e : ApexInfo) (k : string) (i : nat) :
  mergeInv ctx processed st →
  mergedName ctx a = Some k →
  seen st !! k = Some i →
  merged st !! i = Some e →
  mergeInv ctx (processed ++ [a])
    {| merged :=
         <[i := set_Updatable (Updatable e || Updatable a)
                  (set_InApexes (InApexes e ++ [ApexVariationName a]) e)]> (merged st);
       seen := seen st;
       aliases := aliases st ++ [(ApexVariationName a, k)] |}.
Proof.
  intros Hinv Hk Hs He.
  set (e' := set_Updatable _ _).
  assert (ApexVariationName e = k) as Hek.
  { pose proof (proj1 (inv_seen _ _ _ Hinv k i) Hs) as Hi.
    rewrite list_lookup_fmap, He in Hi. by injection Hi. }
  assert (ApexVariationName <$> <[i := e']> (merged st) = ApexVariationName <$> merged st)
    as Hnames.
  { rewrite list_fmap_insert. apply list_insert_id.
    rewrite list_lookup_fmap, He. done. }
  split; simpl.
  - intros k' j. rewrite Hnames. apply (inv_seen _ _ _ Hinv).
  - intros x Hx. apply list_elem_of_lookup in Hx as [j Hj].
    destruct (decide (j = i)) as [->|Hji].
    + rewrite list_lookup_insert_eq in Hj by (by eapply lookup_lt_Some).
      injection Hj as <-.
      destruct (inv_from _ _ _ Hinv e) as (r & rest & Hg & Hm & Hr & Hin & Hu).
      { by eapply list_elem_of_lookup_2. }
      exists r, (rest ++ [a]). simpl. rewrite mergeGroup_snoc, Hg, Hek.
      rewrite decide_True by done.
      split; [done|]. split; [done|]. split; [done|]. split.
      * rewrite Hin, map_app, <- app_assoc. done.
      * rewrite Hu. simpl. rewrite existsb_app. simpl.
        rewrite orb_false_r, orb_assoc. done.
    + rewrite list_lookup_insert_ne in Hj by done.
      apply mergedFrom_snoc_other.
      * rewrite Hk. intros [= ->]. apply Hji.
        by eapply (merged_names_inj processed st j i x e).
      * apply (inv_from _ _ _ Hinv). by eapply list_elem_of_lookup_2.
  - intros b Hb. apply elem_of_app in Hb as [Hb|Hb].
    + by apply (inv_covered _ _ _ Hinv).
    + apply list_elem_of_singleton in Hb as ->. exists k. rewrite Hs. eauto.
  - apply Forall2_app; [apply (inv_aliases _ _ _ Hinv)|].
    constructor; [done | constructor].
  - rewrite length_insert, length_app. pose proof (inv_length _ _ _ Hinv). simpl. lia.
Qed.

Lemma mergeInv_step_new (processed : list ApexInfo) (st : mergeState)
    (a : ApexInfo) (k : string) :
  mergeInv ctx processed st →
  mergedName ctx a = Some k →
  seen st !! k = None →
  mergeInv ctx (processed ++ [a])
    {| merged := merged st ++ [set_InApexes (InApexes a) (set_ApexVariationName k a)];
       seen := <[k := length (merged st)]> (seen st);
       aliases := aliases st ++ [(ApexVariationName a, k)] |}.
Proof.
  intros Hinv Hk Hs.
  assert (∀ j, (ApexVariationName <$> merged st) !! j ≠ Some k) as Hfresh.
  { intros j Hj. apply (inv_seen _ _ _ Hinv) in Hj. congruence. }
  split; simpl.
  - intros k' j. rewrite fmap_app. simpl.
    destruct (decide (k = k')) as [<-|Hkk].
    + rewrite lookup_insert_eq. split.
      * intros [= <-]. rewrite lookup_app_r by (by rewrite length_fmap).
        by rewrite length_fmap, Nat.sub_diag.
      * intros Hj. f_equal.
        destruct (decide (j < length (merged st))%nat) as [Hlt|Hge].
        -- rewrite lookup_app_l in Hj by (by rewrite length_fmap). by apply Hfresh in Hj.
        -- apply lookup_lt_Some in Hj. rewrite length_app, length_fmap in Hj.
           simpl in Hj. lia.
    + rewrite lookup_insert_ne by done. rewrite (inv_seen _ _ _ Hinv). split.
      * intros Hj. by apply lookup_app_l_Some.
      * intros Hj. apply lookup_app_Some in Hj as [Hj|[Hge Hj]]; [done|].
        rewrite length_fmap in Hj.
        apply list_lookup_singleton_Some in Hj as [_ ?]. done.
  - intros x Hx. apply elem_of_app in Hx as [Hx|Hx].
    + apply mergedFrom_snoc_other; [|by apply (inv_from _ _ _ Hinv)].
      rewrite Hk. intros [= ->].
      apply list_elem_of_lookup in Hx as [j Hj]. apply (Hfresh j).
      by rewrite list_lookup_fmap, Hj.
    + apply list_elem_of_singleton in Hx as ->.
      exists a, []. simpl. rewrite mergeGroup_snoc, decide_True by done.
      assert (mergeGroup ctx k processed = []) as ->.
      { apply mergeGroup_nil. intros b Hb Hbk.
        destruct (inv_covered _ _ _ Hinv b Hb) as (k' & Hk' & [? Hsome]).
        congruence. }
      rewrite app_nil_r, orb_false_r. done.
  - intros b Hb. apply elem_of_app in Hb as [Hb|Hb].
    + destruct (inv_covered _ _ _ Hinv b Hb) as (k' & Hk' & Hsome).
      exists k'. split; [done|].
      destruct (decide (k = k')) as [<-|Hkk];
        [rewrite lookup_insert_eq | rewrite lookup_insert_ne by done]; eauto.
    + apply list_elem_of_singleton in Hb as ->. exists k.
      rewrite lookup_insert_eq. eauto.
  - apply Forall2_app; [apply (inv_aliases _ _ _ Hinv)|].
    constructor; [done | constructor].
  - rewrite !length_app. pose proof (inv_length _ _ _ Hinv). simpl. lia.
Qed.

Lemma mergeInv_step (processed : list ApexInfo) (st st' : mergeState) (a : ApexInfo) :
  mergeInv ctx processed st →
  mergeApexVariations_step ctx st a = Some st' →
  mergeInv ctx (processed ++ [a]) st'.
Proof.
  intros Hinv Hstep.
  destruct (merge_step_parses _ _ _ Hstep) as [k Hk].
  destruct (seen st !! k) as [i|] eqn:Hs.
  - pose proof (proj1 (inv_seen _ _ _ Hinv k i) Hs) as Hi.
    apply list_lookup_fmap_Some in Hi as (e & _ & He).
    rewrite (merge_step_seen st a e k i) in Hstep by done.
    injection Hstep as <-. by apply mergeInv_step_seen.
  - rewrite (merge_step_new st a k) in Hstep by done.
    injection Hstep as <-. by apply mergeInv_step_new.
Qed.

Lemma mergeInv_loop (rest processed : list ApexInfo) (st st' : mergeState) :
  mergeInv ctx processed st →
  mergeApexVariations_loop ctx rest st = Some st' →
  mergeInv ctx (processed ++ rest) st'.
Proof.
  revert processed st. induction rest as [|a rest IH]; intros processed st Hinv; simpl.
  - intros [= <-]. by rewrite app_nil_r.
  - destruct (mergeApexVariations_step ctx st a) as [st1|] eqn:Hstep; [|done]. simpl.
    intros Hloop. rewrite (assoc_L (++) processed [a] rest : processed ++ a :: rest = _).
    apply (IH _ st1); [|done]. by eapply mergeInv_step.
Qed.

Lemma merge_loop_total (rest processed : list ApexInfo) (st : mergeState) :
  mergeInv ctx processed st →
  Forall (λ a, is_Some (mergedName ctx a)) rest →
  is_Some (mergeApexVariations_loop ctx rest st).
Proof.
  revert processed st. induction rest as [|a rest IH]; intros processed st Hinv Hall; simpl.
  - eauto.
  - apply Forall_cons in Hall as [Ha Hall].
    destruct (merge_step_total processed st a Hinv Ha) as [st1 Hstep].
    rewrite Hstep. simpl. apply (IH (processed ++ [a])); [|done].
    by eapply mergeInv_step.
Qed.

(** What the loop leaves when no two requirements share a merged name and
    each is already named by its merged name: the requirements themselves. *)
Lemma merge_loop_fixed (rest acc : list ApexInfo) (seenAcc : gmap string nat)
    (al : list (string * string)) :
  (∀ e, e ∈ rest → mergedName ctx e = Some (ApexVariationName e)) →
  NoDup (ApexVariationName <$> acc ++ rest) →
  (∀ k, is_Some (seenAcc !! k) → k ∈ ApexVariationName <$> acc) →
  ∃ seen',
    mergeApexVariations_loop ctx rest {| merged := acc; seen := seenAcc; aliases := al |}
    = Some {| merged := acc ++ rest; seen := seen';
              aliases := al ++ ((λ e, (ApexVariationName e, ApexVariationName e)) <$> rest) |}.
Proof.
  revert acc seenAcc al.
  induction rest as [|e rest IH]; intros acc seenAcc al Hkey Hnd Hseen; simpl.
  - exists seenAcc. by rewrite !app_nil_r.
  - assert (seenAcc !! ApexVariationName e = None) as Hfresh.
    { destruct (seenAcc !! ApexVariationName e) eqn:Hs; [|done].
      rewrite fmap_app in Hnd. apply NoDup_app in Hnd as (_ & Hdisj & _).
      destruct (Hdisj (ApexVariationName e)); [apply Hseen; eauto | by left]. }
    rewrite (merge_step_new _ e (ApexVariationName e)); simpl;
      [|apply Hkey; left | done].
    assert (set_InApexes (InApexes e) (set_ApexVariationName (ApexVariationName e) e) = e)
      as -> by (by destruct e).
    destruct (IH (acc ++ [e]) (<[ApexVariationName e := length acc]> seenAcc)
                 (al ++ [(ApexVariationName e, ApexVariationName e)])) as [seen' Hloop].
    + intros x Hx. apply Hkey. by right.
    + by rewrite <- app_assoc.
    + intros k Hk. rewrite fmap_app, elem_of_app. simpl.
      destruct (decide (ApexVariationName e = k)) as [<-|Hne].
      * right. left.
      * rewrite lookup_insert_ne in Hk by done. left. by apply Hseen.
    + exists seen'. rewrite Hloop, <- !app_assoc. done.
Qed.

Context `{!SortInterface}.

(** On well-formed requirements the merge returns, and its result satisfies
    the invariant of the loop for the sorted input. *)
Lemma mergeApexVariations_run (l : list ApexInfo) :
  wellFormed ctx l →
  ∃ st, mergeApexVariations ctx l = Some (merged st, aliases st)
        ∧ mergeInv ctx (sort_Sort l) st.
Proof.
  intros Hwf. unfold mergeApexVariations.
  assert (Forall (λ a, is_Some (mergedName ctx a)) (sort_Sort l)) as Hall.
  { rewrite sort_Sort_perm. unfold wellFormed in Hwf.
    eapply Forall_impl; [exact Hwf|]. intros a. by rewrite mergedName_is_Some. }
  destruct (merge_loop_total _ [] _ mergeInv_init Hall) as [st Hloop].
  exists st. rewrite Hloop. split; [done|].
  by apply (mergeInv_loop _ [] _ _ mergeInv_init).
Qed.

(** X8: the merge returns exactly on well-formed requirements; otherwise
    [mergedName] panics. *)
Lemma mergeApexVariations_returns_iff (l : list ApexInfo) :
  is_Some (mergeApexVariations ctx l) ↔ wellFormed ctx l.
Proof.
  split.
  - intros [[mergedL aliasesL] Hm]. unfold mergeApexVariations in Hm.
    destruct (mergeApexVariations_loop ctx (sort_Sort l) _) as [st|] eqn:Hloop; [|done].
    pose proof (mergeInv_loop _ [] _ _ mergeInv_init Hloop) as Hinv. simpl in Hinv.
    unfold wellFormed. rewrite <- (sort_Sort_perm l). apply Forall_forall. intros a Ha.
    destruct (inv_covered _ _ _ Hinv a Ha) as (k & Hk & _).
    apply mergedName_is_Some. eauto.
  - intros Hwf. destruct (mergeApexVariations_run l Hwf) as (st & Hrun & _). eauto.
Qed.

(** C6: on requirements whose [MinSdkVersionStr] are serialized API levels,
    [mergeApexVariations] returns a merged list that is at most as long as the
    input and a list of aliases that is exactly as long as the input, with one
    pair of the original variation name and the merged name for each
    requirement, in the sorted order. *)
Theorem mergeApexVariations_lengths (l : list ApexInfo) :
  wellFormed ctx l →
  ∃ mergedL aliasesL,
    mergeApexVariations ctx l = Some (mergedL, aliasesL)
    ∧ (length mergedL ≤ length l)%nat
    ∧ length aliasesL = length l
    ∧ Forall2 (aliasOf ctx) (sort_Sort l) aliasesL.
Proof.
  intros Hwf. destruct (mergeApexVariations_run l Hwf) as (st & Hrun & Hinv).
  exists (merged st), (aliases st). split; [done|].
  pose proof (inv_length _ _ _ Hinv) as Hlen.
  pose proof (inv_aliases _ _ _ Hinv) as Hal.
  pose proof (Forall2_length _ _ _ Hal) as Hlen'.
  pose proof (Permutation_length (sort_Sort_perm l)) as Hp.
  split; [lia|]. split; [lia | done].
Qed.

Lemma NoDup_fmap_inj_on {A B} (f : A → B) (l : list A) (a b : A) :
  NoDup (f <$> l) → a ∈ l → b ∈ l → f a = f b → a = b.
Proof.
  induction l as [|x l IH]; intros Hnd Ha Hb Hf; [inversion Ha|].
  rewrite fmap_cons in Hnd. apply NoDup_cons in Hnd as [Hx Hnd].
  inversion Ha; inversion Hb; subst; [done | | | by apply IH].
  - destruct Hx. rewrite Hf. by apply list_elem_of_fmap_2.
  - destruct Hx. rewrite <- Hf. by apply list_elem_of_fmap_2.
Qed.

Lemma NoDup_names_group (k : string) (l : list ApexInfo) :
  NoDup (ApexVariationName <$> l) →
  NoDup (ApexVariationName <$> mergeGroup ctx k l).
Proof.
  intros Hnd. eapply sublist_NoDup; [exact Hnd|].
  apply fmap_sublist, sublist_filter.
Qed.

(** With requirements that hold their own name only, the [InApexes] of a
    merged entry are the variation names of its group. *)
Lemma mergedFrom_own (processed : list ApexInfo) (e : ApexInfo) :
  Forall ownApexOnly processed →
  mergedFrom ctx processed e →
  InApexes e = ApexVariationName <$> mergeGroup ctx (ApexVariationName e) processed.
Proof.
  intros Hown (r & rest & Hg & _ & _ & Hin & _). rewrite Hin, Hg.
  assert (r ∈ mergeGroup ctx (ApexVariationName e) processed) as Hr
    by (rewrite Hg; left).
  unfold mergeGroup in Hr. apply list_elem_of_filter in Hr as [_ Hr].
  rewrite Forall_forall in Hown. rewrite (Hown r Hr). done.
Qed.

Lemma mergedFrom_key (processed : list ApexInfo) (e : ApexInfo) :
  mergedFrom ctx processed e → mergedName ctx e = Some (ApexVariationName e).
Proof.
  intros (r & rest & Hg & Hm & Hr & _).
  assert (r ∈ mergeGroup ctx (ApexVariationName e) processed) as Hin
    by (rewrite Hg; left).
  unfold mergeGroup in Hin. apply list_elem_of_filter in Hin as [Hk _].
  rewrite <- Hk. by apply mergedName_ext.
Qed.

Lemma merged_of_seen (processed : list ApexInfo) (st : mergeState) (k : string) :
  mergeInv ctx processed st → is_Some (seen st !! k) →
  ∃ e, e ∈ merged st ∧ ApexVariationName e = k.
Proof.
  intros Hinv [i Hi]. apply (inv_seen _ _ _ Hinv) in Hi.
  apply list_lookup_fmap_Some in Hi as (e & -> & He).
  exists e. split; [by eapply list_elem_of_lookup_2 | done].
Qed.

Lemma merged_same_name (processed : list ApexInfo) (st : mergeState) (e1 e2 : ApexInfo) :
  mergeInv ctx processed st → e1 ∈ merged st → e2 ∈ merged st →
  ApexVariationName e1 = ApexVariationName e2 → e1 = e2.
Proof.
  intros Hinv H1 H2. apply (NoDup_fmap_inj_on _ (merged st)); [|done..].
  by eapply merged_names_NoDup.
Qed.

(** The [InApexes] of the merged entries, for requirements that hold their
    own, pairwise distinct, names. *)
Lemma mergeInv_partition (processed : list ApexInfo) (st : mergeState) :
  mergeInv ctx processed st →
  Forall ownApexOnly processed →
  NoDup (ApexVariationName <$> processed) →
  (∀ e, e ∈ merged st →
     NoDup (InApexes e)
     ∧ ∀ x, x ∈ InApexes e ↔
            ∃ a, a ∈ processed ∧ mergedName ctx a = Some (ApexVariationName e)
                 ∧ x ∈ InApexes a)
  ∧ NoDup (merged st ≫= InApexes)
  ∧ merged st ≫= InApexes ≡ₚ processed ≫= InApexes.
Proof.
  intros Hinv Hown Hnd.
  assert (∀ a x, a ∈ processed → x ∈ InApexes a ↔ x = ApexVariationName a) as Hmem.
  { intros a x Ha. rewrite Forall_forall in Hown. rewrite (Hown a Ha).
    apply list_elem_of_singleton. }
  assert (∀ e, e ∈ merged st →
     NoDup (InApexes e)
     ∧ ∀ x, x ∈ InApexes e ↔
            ∃ a, a ∈ processed ∧ mergedName ctx a = Some (ApexVariationName e)
                 ∧ x ∈ InApexes a) as Hentry.
  { intros e He. pose proof (inv_from _ _ _ Hinv e He) as Hfrom.
    rewrite (mergedFrom_own processed e Hown Hfrom). split.
    - by apply NoDup_names_group.
    - intros x. rewrite list_elem_of_fmap. unfold mergeGroup. split.
      + intros (a & -> & Ha). apply list_elem_of_filter in Ha as [Hk Ha].
        exists a. by rewrite Hmem.
      + intros (a & Ha & Hk & Hx). exists a. rewrite Hmem in Hx by done.
        split; [done|]. by apply list_elem_of_filter. }
  assert (NoDup (merged st ≫= InApexes)) as Hnd'.
  { apply NoDup_bind.
    - intros e1 e2 x H1 H2 Hx1 Hx2.
      apply (Hentry e1 H1) in Hx1 as (a1 & Ha1 & Hk1 & Hx1).
      apply (Hentry e2 H2) in Hx2 as (a2 & Ha2 & Hk2 & Hx2).
      rewrite Hmem in Hx1, Hx2 by done.
      assert (a1 = a2) as <- by (eapply NoDup_fmap_inj_on; eauto; congruence).
      eapply merged_same_name; eauto. congruence.
    - intros e He. by apply Hentry.
    - eapply NoDup_fmap_1, merged_names_NoDup. done. }
  split; [done|]. split; [done|].
  apply NoDup_Permutation; [done | |].
  - apply NoDup_bind; [|intros a Ha|by eapply NoDup_fmap_1].
    + intros a1 a2 x H1 H2 Hx1 Hx2. rewrite Hmem in Hx1, Hx2 by done.
      eapply NoDup_fmap_inj_on; eauto. congruence.
    + rewrite Forall_forall in Hown. rewrite (Hown a Ha). apply NoDup_singleton.
  - intros x. rewrite !list_elem_of_bind. split.
    + intros (e & Hx & He). apply (Hentry e He) in Hx as (a & Ha & _ & Hx). eauto.
    + intros (a & Hx & Ha).
      destruct (inv_covered _ _ _ Hinv a Ha) as (k & Hk & Hsome).
      destruct (merged_of_seen processed st k Hinv Hsome) as (e & He & <-).
      exists e. split; [|done]. apply (Hentry e He). eauto.
Qed.

(** C1 (as the code has it): on well-formed requirements the merge returns,
    and each merged entry is the renamed copy of the first requirement of its
    group (the requirements of the sorted input that share its merged name),
    whose [InApexes] are followed by the variation names, not the [InApexes],
    of the other requirements of the group: when the merged name has been
    seen, the round of the loop appends the variation name of the incoming
    requirement to the entry and ors its [Updatable] into it.  When every
    requirement holds its own variation name as only [InApexes] and the
    names are pairwise distinct, as they are when registered, the [InApexes]
    of a merged entry are without duplicates and are exactly the names held
    by the requirements folded into it, and the entries partition the names
    of the input: taken together they are the names of the input, each once. *)
Theorem mergeApexVariations_InApexes (l : list ApexInfo) :
  wellFormed ctx l →
  (∃ mergedL aliasesL,
     mergeApexVariations ctx l = Some (mergedL, aliasesL)
     ∧ (∀ e, e ∈ mergedL → mergedFrom ctx (sort_Sort l) e)
     ∧ (Forall ownApexOnly l →
        NoDup (ApexVariationName <$> l) →
        (∀ e, e ∈ mergedL →
           NoDup (InApexes e)
           ∧ ∀ x, x ∈ InApexes e ↔
                  ∃ a, a ∈ l ∧ mergedName ctx a = Some (ApexVariationName e)
                       ∧ x ∈ InApexes a)
        ∧ NoDup (mergedL ≫= InApexes)
        ∧ mergedL ≫= InApexes ≡ₚ l ≫= InApexes))
  ∧ (∀ (st : mergeState) (a e : ApexInfo) (k : string) (i : nat),
       mergedName ctx a = Some k →
       seen st !! k = Some i →
       merged st !! i = Some e →
       mergeApexVariations_step ctx st a =
       Some {| merged :=
                 <[i := set_Updatable (Updatable e || Updatable a)
                          (set_InApexes (InApexes e ++ [ApexVariationName a]) e)]>
                   (merged st);
               seen := seen st;
               aliases := aliases st ++ [(ApexVariationName a, k)] |}).
Proof.
  intros Hwf. split; [|apply merge_step_seen].
  destruct (mergeApexVariations_run l Hwf) as (st & Hrun & Hinv).
  exists (merged st), (aliases st). split; [done|]. split.
  - apply (inv_from _ _ _ Hinv).
  - intros Hown Hnd.
    destruct (mergeInv_partition (sort_Sort l) st Hinv) as (Hentry & Hnd' & Hperm).
    + by rewrite sort_Sort_perm.
    + by rewrite sort_Sort_perm.
    + split; [|split; [done|]].
      * intros e He. destruct (Hentry e He) as [? Hx]. split; [done|].
        intros x. rewrite Hx. by setoid_rewrite sort_Sort_perm.
      * rewrite Hperm. by rewrite sort_Sort_perm.
Qed.

Lemma byApexName_le_names (a b : ApexInfo) :
  byApexName_le a b ↔ String.le (ApexVariationName a) (ApexVariationName b).
Proof. unfold byApexName_le, byApexName_Less. apply ltb_false_le. Qed.

(** A list that is in order and holds no variation name twice is left as it
    is by the sort. *)
Lemma sort_Sort_sorted_id (l : list ApexInfo) :
  NoDup (ApexVariationName <$> l) → StronglySorted byApexName_le l → sort_Sort l = l.
Proof.
  intros Hnd Hs.
  apply (StronglySorted_unique_strong byApexName_le);
    [|apply sort_Sort_sorted | done | apply sort_Sort_perm].
  intros x1 x2 H1 H2 H12 H21. rewrite sort_Sort_perm in H1.
  apply (NoDup_fmap_inj_on ApexVariationName l); [done..|].
  apply byApexName_le_names in H12, H21. by apply (anti_symm String.le).
Qed.

(** C7 (as the code has it): merging the merged list again returns the
    merged list sorted by variation name, which holds the same requirements,
    each with the same [InApexes], possibly in another order (in the same
    order when the merged list is in order of the names already), and every
    alias of the second run maps a variation name to itself. *)
Theorem mergeApexVariations_again (l : list ApexInfo) :
  wellFormed ctx l →
  ∃ mergedL aliasesL,
    mergeApexVariations ctx l = Some (mergedL, aliasesL)
    ∧ mergeApexVariations ctx mergedL
      = Some (sort_Sort mergedL,
              (λ e, (ApexVariationName e, ApexVariationName e)) <$> sort_Sort mergedL)
    ∧ sort_Sort mergedL ≡ₚ mergedL
    ∧ (StronglySorted byApexName_le mergedL → sort_Sort mergedL = mergedL).
Proof.
  intros Hwf. destruct (mergeApexVariations_run l Hwf) as (st & Hrun & Hinv).
  exists (merged st), (aliases st). split; [done|].
  pose proof (merged_names_NoDup _ _ Hinv) as Hnd.
  split; [|split; [apply sort_Sort_perm | by apply sort_Sort_sorted_id]].
  unfold mergeApexVariations.
  destruct (merge_loop_fixed (sort_Sort (merged st)) [] ∅ []) as [seen' Hloop].
  - intros e He. rewrite sort_Sort_perm in He.
    eapply mergedFrom_key, (inv_from _ _ _ Hinv). done.
  - simpl. by rewrite sort_Sort_perm.
  - intros k [? Hk]. by rewrite lookup_empty in Hk.
  - rewrite Hloop. done.
Qed.

(** ** Creation of the variants *)

Lemma finishVariants_ok (reqs : list ApexInfo) (props : ApexProperties)
    (labels : list string) (i : nat) :
  (i + length labels ≤ S (length reqs))%nat →
  ∃ modules,
    finishVariants ctx reqs i (CreateVariations props labels) = Some modules
    ∧ variation <$> modules = labels.
Proof.
  revert i. induction labels as [|v labels IH]; intros i Hi; simpl.
  - by exists [].
  - simpl in Hi. destruct (IH (S i)) as (rest' & Hrest & Hlabels); [lia|].
    rewrite Hrest. unfold finishVariant. destruct i as [|i]; simpl.
    + eexists. split; [done|]. simpl. f_equal; [|done].
      by destruct (_ && _).
    + rewrite Nat.sub_0_r.
      destruct (reqs !! i) as [info|] eqn:Hinfo.
      * simpl. eexists. split; [done|]. simpl. by f_equal.
      * apply lookup_ge_None in Hinfo. lia.
Qed.

(** What [CreateApexVariations] returns and asks for, for one sort. *)
Lemma CreateApexVariations_run (self : ApexModule) :
  apexVariations (apexModuleBase self) ≠ [] →
  (mergesVariations self = true → wellFormed ctx (apexVariations (apexModuleBase self))) →
  ∃ chosen aliasesL modules calls,
    (if mergesVariations self
     then mergeApexVariations ctx (apexVariations (apexModuleBase self))
          = Some (chosen, aliasesL)
     else chosen = apexVariations (apexModuleBase self) ∧ aliasesL = [])
    ∧ CreateApexVariations ctx self = Some (modules, Some calls)
    ∧ length modules = S (length chosen)
    ∧ createdVariations calls = "" :: (ApexVariationName <$> sort_Sort chosen)
    ∧ variation <$> modules = "" :: (ApexVariationName <$> sort_Sort chosen)
    ∧ StronglySorted String.le (ApexVariationName <$> sort_Sort chosen)
    ∧ ApexVariationName <$> sort_Sort chosen ≡ₚ ApexVariationName <$> chosen
    ∧ aliasVariations calls = aliasesL.
Proof.
  intros Hne Hwf.
  assert (∃ chosen aliasesL,
    (if mergesVariations self
     then mergeApexVariations ctx (apexVariations (apexModuleBase self))
          = Some (chosen, aliasesL)
     else chosen = apexVariations (apexModuleBase self) ∧ aliasesL = [])
    ∧ variationsToCreate ctx self = Some (sort_Sort chosen, aliasesL))
    as (chosen & aliasesL & Hchosen & Hto).
  { unfold variationsToCreate. fold (mergesVariations self).
    destruct (mergesVariations self).
    - destruct (mergeApexVariations_run _ (Hwf eq_refl)) as (st & Hrun & _).
      exists (merged st), (aliases st). by rewrite Hrun.
    - by exists (apexVariations (apexModuleBase self)), []. }
  destruct (finishVariants_ok (sort_Sort chosen) (apexProperties (apexModuleBase self))
              ([""] ++ (ApexVariationName <$> sort_Sort chosen)) 0)
    as (modules & Hfin & Hlabels).
  { simpl. rewrite length_fmap. lia. }
  exists chosen, aliasesL, modules. eexists.
  split; [done|]. split.
  - unfold CreateApexVariations.
    assert ((0 <? length (apexVariations (apexModuleBase self)))%nat = true) as ->.
    { apply Nat.ltb_lt. destruct (apexVariations (apexModuleBase self)); [done|simpl; lia]. }
    rewrite Hto. cbn [mbind option_bind]. rewrite Hfin. done.
  - simpl. split; [|split; [done|split; [done|split; [|split; [|done]]]]].
    + rewrite <- (length_fmap variation), Hlabels. simpl.
      by rewrite length_fmap, (Permutation_length (sort_Sort_perm chosen)).
    + eapply StronglySorted_fmap; [|apply sort_Sort_sorted].
      intros x y. apply byApexName_le_names.
    + by rewrite sort_Sort_perm.
Qed.

(** The names of the merged entries are the merged names of the input. *)
Lemma merged_names_char (processed : list ApexInfo) (st : mergeState) (k : string) :
  mergeInv ctx processed st →
  k ∈ ApexVariationName <$> merged st ↔
  ∃ a, a ∈ processed ∧ mergedName ctx a = Some k.
Proof.
  intros Hinv. rewrite list_elem_of_fmap. split.
  - intros (e & -> & He).
    destruct (inv_from _ _ _ Hinv e He) as (r & rest & Hg & _).
    assert (r ∈ mergeGroup ctx (ApexVariationName e) processed) as Hr
      by (rewrite Hg; left).
    unfold mergeGroup in Hr. apply list_elem_of_filter in Hr as [? ?]. eauto.
  - intros (a & Ha & Hk).
    destruct (inv_covered _ _ _ Hinv a Ha) as (k' & Hk' & Hsome).
    destruct (merged_of_seen processed st k' Hinv Hsome) as (e & He & <-).
    exists e. split; [congruence | done].
Qed.

Lemma mergeApexVariations_names (l mergedL : list ApexInfo)
    (aliasesL : list (string * string)) (k : string) :
  wellFormed ctx l →
  mergeApexVariations ctx l = Some (mergedL, aliasesL) →
  NoDup (ApexVariationName <$> mergedL)
  ∧ (k ∈ ApexVariationName <$> mergedL ↔ ∃ a, a ∈ l ∧ mergedName ctx a = Some k).
Proof.
  intros Hwf Hm. destruct (mergeApexVariations_run l Hwf) as (st & Hrun & Hinv).
  rewrite Hrun in Hm. injection Hm as <- <-. split.
  - by eapply merged_names_NoDup.
  - rewrite (merged_names_char _ _ k Hinv). by setoid_rewrite sort_Sort_perm.
Qed.

End Merge.

(** ** A sort to run the functions with *)

#[global] Instance byApexName_le_dec : RelDecision byApexName_le.
Proof. intros a b. unfold byApexName_le. apply _. Defined.

#[global] Instance byApexName_le_trans : Transitive byApexName_le.
Proof.
  intros a b c. rewrite !byApexName_le_names. apply transitivity.
Qed.

#[global] Instance byApexName_le_total : Total byApexName_le.
Proof.
  intros a b. rewrite !byApexName_le_names. apply total, _.
Qed.

(** Merge sort is one of the sorts [sort.Sort] may be. *)
Definition mergeSort : SortInterface :=
  {| sort_Sort := merge_sort byApexName_le;
     sort_Sort_perm := merge_sort_Permutation byApexName_le;
     sort_Sort_sorted := StronglySorted_merge_sort byApexName_le |}.

(** ** The variants of a module *)

(** C3: for a module with requirements (well formed, when they are to be
    merged), [CreateApexVariations] returns one module more than there are
    merged (or, for a module with unique variations, registered) requirements; the
    variations it asks the mutator for, and the returned modules in this
    order, are the empty platform variation followed by the variation names of
    these requirements in ascending order.  These labels are the same for
    every sort that [sort.Sort] may be. *)
Theorem CreateApexVariations_variants {srt : SortInterface} (ctx : Context)
    (self : ApexModule) :
  apexVariations (apexModuleBase self) ≠ [] →
  (mergesVariations self = true → wellFormed ctx (apexVariations (apexModuleBase self))) →
  ∃ chosen aliasesL modules calls,
    (if mergesVariations self
     then mergeApexVariations ctx (apexVariations (apexModuleBase self))
          = Some (chosen, aliasesL)
     else chosen = apexVariations (apexModuleBase self) ∧ aliasesL = [])
    ∧ CreateApexVariations ctx self = Some (modules, Some calls)
    ∧ length modules = S (length chosen)
    ∧ createdVariations calls = "" :: (ApexVariationName <$> sort_Sort chosen)
    ∧ variation <$> modules = createdVariations calls
    ∧ StronglySorted String.le (ApexVariationName <$> sort_Sort chosen)
    ∧ (∀ other : SortInterface,
         ∃ modules' calls',
           @CreateApexVariations other ctx self = Some (modules', Some calls')
           ∧ createdVariations calls' = createdVariations calls
           ∧ variation <$> modules' = variation <$> modules).
Proof.
  intros Hne Hwf.
  destruct (@CreateApexVariations_run ctx srt self Hne Hwf)
    as (chosen & aliasesL & modules & calls & Hch & Hrun & Hlen & Hcalls & Hvar & Hs & Hp & _).
  exists chosen, aliasesL, modules, calls.
  split; [done|]. split; [done|]. split; [done|]. split; [done|].
  split; [congruence|]. split; [done|].
  intros other.
  destruct (@CreateApexVariations_run ctx other self Hne Hwf)
    as (chosen' & aliasesL' & modules' & calls' & Hch' & Hrun' & _ & Hcalls' & Hvar' & Hs' & Hp' & _).
  exists modules', calls'. split; [done|].
  assert (ApexVariationName <$> @sort_Sort other chosen'
          = ApexVariationName <$> @sort_Sort srt chosen) as Heq.
  { apply (StronglySorted_unique String.le); [exact Hs' | exact Hs |].
    rewrite Hp, Hp'. destruct (mergesVariations self).
    - specialize (Hwf eq_refl). apply NoDup_Permutation.
      + apply (proj1 (@mergeApexVariations_names ctx other _ _ _ "" Hwf Hch')).
      + apply (proj1 (@mergeApexVariations_names ctx srt _ _ _ "" Hwf Hch)).
      + intros k.
        rewrite (proj2 (@mergeApexVariations_names ctx other _ _ _ k Hwf Hch')).
        rewrite (proj2 (@mergeApexVariations_names ctx srt _ _ _ k Hwf Hch)). done.
    - destruct Hch as [-> _], Hch' as [-> _]. done. }
  rewrite Hcalls', Hvar', Hcalls, Hvar, Heq. done.
Qed.

(** ** The statements at sample inputs *)

Lemma sampleInfos_wellFormed : wellFormed deviceContext sampleInfos.
Proof. unfold wellFormed, sampleInfos. repeat constructor; by eexists. Qed.

Lemma CreateApexVariations_variants_witness :
  ∃ modules calls,
    @CreateApexVariations mergeSort deviceContext sampleModule = Some (modules, Some calls)
    ∧ variation <$> modules = createdVariations calls.
Proof.
  destruct (@CreateApexVariations_variants mergeSort deviceContext sampleModule)
    as (chosen & aliasesL & modules & calls & _ & Hrun & _ & _ & Hvar & _).
  - discriminate.
  - intros _. exact sampleInfos_wellFormed.
  - exists modules, calls. split; [exact Hrun | exact Hvar].
Defined.

Lemma mergeApexVariations_lengths_witness :
  ∃ mergedL aliasesL,
    @mergeApexVariations mergeSort deviceContext sampleInfos = Some (mergedL, aliasesL)
    ∧ (length mergedL ≤ length sampleInfos)%nat
    ∧ length aliasesL = length sampleInfos.
Proof.
  destruct (@mergeApexVariations_lengths deviceContext mergeSort sampleInfos
              sampleInfos_wellFormed) as (mergedL & aliasesL & Hm & Hlen & Hal & _).
  exists mergedL, aliasesL. split; [exact Hm | split; [exact Hlen | exact Hal]].
Defined.

Lemma mergeApexVariations_InApexes_witness :
  ∃ mergedL aliasesL,
    @mergeApexVariations mergeSort deviceContext sampleInfos = Some (mergedL, aliasesL)
    ∧ mergedL ≫= InApexes ≡ₚ sampleInfos ≫= InApexes.
Proof.
  destruct (proj1 (@mergeApexVariations_InApexes deviceContext mergeSort sampleInfos
                     sampleInfos_wellFormed))
    as (mergedL & aliasesL & Hm & _ & Hpart).
  exists mergedL, aliasesL. split; [exact Hm|].
  apply Hpart.
  - repeat constructor.
  - compute_done.
Defined.

(** C1, against the claim as stated: the second requirement is folded into
    the entry of the first, and of its [InApexes], [x] and [y], neither is in
    the merged entry, which holds the variation name [b] instead. *)
Lemma mergeApexVariations_InApexes_counterexample :
  @mergeApexVariations mergeSort deviceContext infosWithMembers
  = Some ([ {| ApexVariationName := "apex10000"; MinSdkVersionStr := "current";
               Updatable := false; RequiredSdks := []; InApexes := ["a"; "b"] |} ],
          [("a", "apex10000"); ("b", "apex10000")])
  ∧ infosWithMembers ≫= InApexes = ["a"; "x"; "y"].
Proof. split; vm_compute; reflexivity. Qed.

Lemma mergeApexVariations_again_witness :
  ∃ mergedL aliasesL,
    @mergeApexVariations mergeSort deviceContext sampleInfos = Some (mergedL, aliasesL)
    ∧ @mergeApexVariations mergeSort deviceContext mergedL
      = Some (@sort_Sort mergeSort mergedL,
              (λ e, (ApexVariationName e, ApexVariationName e))
                <$> @sort_Sort mergeSort mergedL).
Proof.
  destruct (@mergeApexVariations_again deviceContext mergeSort sampleInfos
              sampleInfos_wellFormed) as (mergedL & aliasesL & Hm & Hagain & _).
  exists mergedL, aliasesL. split; [exact Hm | exact Hagain].
Defined.

(** C7, against the claim as stated: the merged list holds [apex30] before
    [apex29], the order in which the names [a] and [b] brought them; merging
    it again returns [apex29] before [apex30]. *)
Lemma mergeApexVariations_again_counterexample :
  let e30 := {| ApexVariationName := "apex30"; MinSdkVersionStr := "30";
                Updatable := false; RequiredSdks := []; InApexes := ["a"] |} in
  let e29 := {| ApexVariationName := "apex29"; MinSdkVersionStr := "29";
                Updatable := false; RequiredSdks := []; InApexes := ["b"] |} in
  @mergeApexVariations mergeSort deviceContext infosOutOfOrder
  = Some ([e30; e29], [("a", "apex30"); ("b", "apex29")])
  ∧ @mergeApexVariations mergeSort deviceContext [e30; e29]
    = Some ([e29; e30], [("apex29", "apex29"); ("apex30", "apex30")])
  ∧ [e29; e30] ≠ [e30; e29].
Proof. split; [|split]; [vm_compute; reflexivity.. | discriminate]. Qed.

Lemma CheckMinSdkVersion_walk_witness :
  CheckMinSdkVersion apexWithAdbd deviceContext (uncheckedFinalApiLevel 29)
  = foldl (WalkPayloadDeps
             (checkMinSdkVersion_do (updatableName apexWithAdbd)
                (uncheckedFinalApiLevel 29)))
          [] (payloadDeps apexWithAdbd).
Proof.
  exact (proj1 (CheckMinSdkVersion_walk apexWithAdbd deviceContext
                  (uncheckedFinalApiLevel 29)
                  eq_refl eq_refl eq_refl eq_refl eq_refl)).
Defined.

Lemma BuildForApex_idempotent_witness :
  BuildForApex (baseWith sampleInfos)
    {| ApexVariationName := "com.android.bar"; MinSdkVersionStr := "30";
       Updatable := true; RequiredSdks := [ {| Name := "sdk"; Version := "1" |} ];
       InApexes := ["com.android.other"] |}
  = baseWith sampleInfos.
Proof.
  apply (proj1 BuildForApex_idempotent _ _ (apexInfoOf "com.android.bar" "current")).
  - right. left.
  - reflexivity.
Defined.

Lemma UpdateUniqueApexVariationsForDeps_spec_witness :
  UniqueApexVariationsForDeps
    (apexProperties
       (UpdateUniqueApexVariationsForDeps (baseWith sampleInfos)
          [OtherModule "libc"; uniqueDep])) = true.
Proof.
  apply (proj1 (UpdateUniqueApexVariationsForDeps_spec (baseWith sampleInfos)
                  [OtherModule "libc"; uniqueDep])).
  right. exists uniqueDep. split; [right; left|].
  eexists. split; [reflexivity|]. split; [|by left].
  exists "com.android.bar", (apexInfoOf "com.android.bar" "current"),
    (apexInfoOf "com.android.bar" "current").
  repeat split; [left | left | right; left | left].
Defined.

(** * Further properties *)

(** ** Availability *)

(** X1: a module is available for the platform exactly when its availability
    list is empty or names the platform: neither the any-APEX nor the GKI
    wildcard grants it. *)
Theorem CheckAvailableForApex_platform (apex_available : list string) :
  CheckAvailableForApex AvailableToPlatform apex_available = true ↔
  apex_available = [] ∨ AvailableToPlatform ∈ apex_available.
Proof.
  unfold CheckAvailableForApex. destruct apex_available as [|a av].
  - simpl. split; [by left | done].
  - cbn [length Nat.eqb].
    replace (String.eqb AvailableToPlatform AvailableToPlatform) with true by done.
    replace (HasPrefix AvailableToPlatform "com.android.gki.") with false by done.
    rewrite !orb_false_r. rewrite InList_spec.
    split; [by right | intros [?|?]; done].
Qed.

(** X2: on a list that is not empty, availability only grows with the list;
    the empty list, which stands for the platform alone, is the one
    exception. *)
Theorem CheckAvailableForApex_mono (what : string) (av av' : list string) :
  av ≠ [] → av ⊆ av' →
  CheckAvailableForApex what av = true → CheckAvailableForApex what av' = true.
Proof.
  intros Hne Hsub. unfold CheckAvailableForApex.
  destruct av as [|a av]; [done|]. destruct av' as [|a' av'].
  { assert (a ∈ @nil string) as H by (apply Hsub; left). inversion H. }
  cbn [length Nat.eqb].
  rewrite !orb_true_iff, !andb_true_iff, !InList_spec.
  intros [[H|[? H]]|[? H]]; auto.
Qed.

Lemma CheckAvailableForApex_mono_witness :
  CheckAvailableForApex "com.android.foo"
    ["//apex_available:platform"; "//apex_available:anyapex"] = true.
Proof.
  apply (CheckAvailableForApex_mono "com.android.foo" ["//apex_available:anyapex"]).
  - discriminate.
  - intros x Hx. by right.
  - reflexivity.
Defined.

(** X3: [checkApexAvailableProperty] reports a name exactly when it is listed,
    is none of the three sentinels, names no module and missing dependencies
    are not allowed; when they are allowed nothing is reported. *)
Theorem checkApexAvailableProperty_spec (mctx : Context) (apex_available : list string) :
  (∀ n, n ∈ checkApexAvailableProperty mctx apex_available ↔
        n ∈ apex_available
        ∧ n ≠ AvailableToPlatform ∧ n ≠ AvailableToAnyApex ∧ n ≠ AvailableToGkiApex
        ∧ OtherModuleExists mctx n = false
        ∧ AllowMissingDependencies mctx = false)
  ∧ (AllowMissingDependencies mctx = true →
     checkApexAvailableProperty mctx apex_available = []).
Proof.
  split.
  - intros n. induction apex_available as [|a av IH]; simpl.
    + split; [inversion 1 | intros [H _]; inversion H].
    + destruct (String.eqb a AvailableToPlatform) eqn:E1;
      [|destruct (String.eqb a AvailableToAnyApex) eqn:E2;
        [|destruct (String.eqb a AvailableToGkiApex) eqn:E3]]; simpl.
      1-3: rewrite IH; split;
        [intros (? & ?); split; [by right | done]
        |intros (Hin & H1 & H2 & H3 & ?); split; [|done];
         inversion Hin; subst; [|done]].
      * apply String.eqb_eq in E1. done.
      * apply String.eqb_eq in E2. done.
      * apply String.eqb_eq in E3. done.
      * apply String.eqb_neq in E1, E2, E3.
        destruct (negb (OtherModuleExists mctx a) && negb (AllowMissingDependencies mctx))
          eqn:E.
        -- apply andb_true_iff in E as [Ha Hb].
           apply negb_true_iff in Ha, Hb. rewrite elem_of_cons, IH. split.
           ++ intros [->|(? & ?)]; [split; [left | done] | split; [by right | done]].
           ++ intros (Hin & ?). inversion Hin; subst; [by left | right; done].
        -- rewrite IH. split; [intros (? & ?); split; [by right | done]|].
           intros (Hin & ? & ? & ? & Ha & Hb). split; [|done].
           inversion Hin; subst; [|done]. rewrite Ha, Hb in E. done.
  - intros Hallow. induction apex_available as [|a av IH]; simpl; [done|].
    rewrite IH, Hallow, andb_false_r. by destruct (_ || _).
Qed.

Lemma checkApexAvailableProperty_spec_witness :
  checkApexAvailableProperty
    {| ApiLevelFromUser := parseApiLevel; Host := false; EmmaInstrument := false;
       NativeCoverageEnabled := false; ClangCoverageEnabled := false;
       OtherModuleExists := λ _, false; AllowMissingDependencies := true |}
    ["com.android.foo"] = [].
Proof.
  apply (proj2 (checkApexAvailableProperty_spec _ _)). reflexivity.
Defined.

(** ** Registration of requirements *)

Lemma BuildForApex_elem (m : ApexModuleBase) (apex v : ApexInfo) :
  v ∈ apexVariations (BuildForApex m apex) ↔
  v ∈ apexVariations m
  ∨ (v = apex ∧ ApexVariationName apex ∉ ApexVariationName <$> apexVariations m).
Proof.
  unfold BuildForApex. destruct (hasApexVariation _ _) eqn:E.
  - split; [by left | intros [?|[_ Hn]]; [done|]].
    destruct Hn. apply hasApexVariation_spec in E as (w & Hw & <-).
    by apply list_elem_of_fmap_2.
  - simpl. rewrite elem_of_app, list_elem_of_singleton.
    apply hasApexVariation_false in E. split.
    + intros [?|?]; [by left | by right].
    + intros [?|[? _]]; [by left | by right].
Qed.

Lemma BuildForApex_names (m : ApexModuleBase) (apex : ApexInfo) (k : string) :
  k ∈ ApexVariationName <$> apexVariations (BuildForApex m apex) ↔
  k ∈ ApexVariationName <$> apexVariations m ∨ k = ApexVariationName apex.
Proof.
  rewrite !list_elem_of_fmap. setoid_rewrite BuildForApex_elem. split.
  - intros (v & Hk & [?|[Hv _]]); subst; eauto.
  - intros [(v & ? & ?)|Hk]; [eauto|]. subst k.
    destruct (decide (ApexVariationName apex ∈ ApexVariationName <$> apexVariations m))
      as [Hin|Hout].
    + apply list_elem_of_fmap in Hin as (w & ? & ?). eauto.
    + eauto.
Qed.

(** X4: after any run of registrations the module holds, besides what it held
    before, exactly the requirements that were the first of the run with
    their variation name (a name held before counts as taken); so every
    variation name asked for is present afterwards, and a later requirement
    with a name already met is dropped. *)
Theorem BuildForApex_first_wins (m : ApexModuleBase) (apexes : list ApexInfo) :
  (∀ v, v ∈ apexVariations (foldl BuildForApex m apexes) ↔
        v ∈ apexVariations m
        ∨ ∃ before after, apexes = before ++ v :: after
            ∧ ApexVariationName v
              ∉ ApexVariationName <$> (apexVariations m ++ before))
  ∧ (∀ k, k ∈ ApexVariationName <$> apexVariations (foldl BuildForApex m apexes) ↔
          k ∈ ApexVariationName <$> apexVariations m
          ∨ k ∈ ApexVariationName <$> apexes).
Proof.
  revert m. induction apexes as [|a apexes IH]; intros m; simpl.
  - split.
    + intros v. split; [by left | intros [?|([|??] & ? & ? & _)]; done].
    + intros k. split; [by left | intros [?|H]; [done | inversion H]].
  - destruct (IH (BuildForApex m a)) as [IHv IHk]. split.
    + intros v. rewrite IHv, BuildForApex_elem. split.
      * intros [[?|[-> Hn]]|(before & after & -> & Hn)].
        -- by left.
        -- right. exists [], apexes. by rewrite app_nil_r.
        -- right. exists (a :: before), after. split; [done|].
           intros Hin. apply Hn. rewrite fmap_app, elem_of_app in Hin |- *.
           rewrite BuildForApex_names. rewrite fmap_cons, elem_of_cons in Hin.
           destruct Hin as [?|[?|?]]; [left; by left | left; by right | by right].
      * intros [?|([|b before] & after & Heq & Hn)]; simplify_eq/=.
        -- by left; left.
        -- left. right. by rewrite app_nil_r in Hn.
        -- right. exists before, after. split; [done|].
           intros Hin. apply Hn. rewrite fmap_app, elem_of_app in Hin |- *.
           rewrite BuildForApex_names in Hin. rewrite fmap_cons, elem_of_cons.
           destruct Hin as [[?|?]|?]; [by left | right; by left | right; by right].
    + intros k. rewrite IHk, BuildForApex_names, elem_of_cons.
      split; [intros [[?|?]|?] | intros [?|[?|?]]]; auto.
Qed.

(** ** The shared-APEX test and the unique-variations flag *)

(** X5: [anyInSameApex] sorts one side and searches it for the names of the
    other, yet its answer is the same with the sides exchanged, and it is
    [false] when one side holds no requirement. *)
Theorem anyInSameApex_sym (a b : list ApexInfo) :
  anyInSameApex a b = anyInSameApex b a
  ∧ anyInSameApex a [] = false
  ∧ anyInSameApex [] b = false.
Proof.
  assert (∀ x y, anyInSameApex x y = true → anyInSameApex y x = true) as Hsym.
  { intros x y. rewrite !anyInSameApex_spec.
    intros (n & ia & ib & ? & ? & ? & ?). exists n, ib, ia. done. }
  split; [|split].
  - destruct (anyInSameApex a b) eqn:E1, (anyInSameApex b a) eqn:E2; try done.
    + apply Hsym in E1. congruence.
    + apply Hsym in E2. congruence.
  - destruct (anyInSameApex a []) eqn:E; [|done].
    apply anyInSameApex_spec in E as (n & ia & ib & _ & _ & H & _). inversion H.
  - destruct (anyInSameApex [] b) eqn:E; [|done].
    apply anyInSameApex_spec in E as (n & ia & ib & H & _). inversion H.
Qed.

(** The flag after the update, for a module with the requirements of [m]. *)
Lemma UpdateUniqueApexVariationsForDeps_flag (m m0 : ApexModuleBase)
    (directDeps : list Module) :
  apexVariations m0 = apexVariations m →
  UniqueApexVariationsForDeps
    (apexProperties (UpdateUniqueApexVariationsForDeps m0 directDeps)) = true ↔
  UniqueApexVariationsForDeps (apexProperties m0) = true
  ∨ ∃ dep, dep ∈ directDeps ∧ needsUniqueFor m dep.
Proof.
  unfold UpdateUniqueApexVariationsForDeps. revert m0.
  induction directDeps as [|dep deps IH]; intros m0 Hm0; simpl.
  - split; [by left | intros [?|(? & H & _)]; [done | inversion H]].
  - destruct (visitDirectDep_rest m0 dep) as (Hv & _).
    rewrite IH, visitDirectDep_flag by congruence.
    assert (needsUniqueFor m0 dep ↔ needsUniqueFor m dep) as ->
      by (unfold needsUniqueFor; rewrite Hm0; done).
    split.
    + intros [[?|?]|(d & ? & ?)]; [by left | right; exists dep | right; exists d].
      * split; [left | done].
      * split; [by right | done].
    + intros [?|(d & Hd & ?)]; [by left; left|].
      inversion Hd; subst; [left; by right | right; eauto].
Qed.

(** The update changes the flag only. *)
Lemma UpdateUniqueApexVariationsForDeps_form (m : ApexModuleBase)
    (directDeps : list Module) :
  UpdateUniqueApexVariationsForDeps m directDeps
  = set_UniqueApexVariationsForDeps
      (UniqueApexVariationsForDeps
         (apexProperties (UpdateUniqueApexVariationsForDeps m directDeps))) m.
Proof.
  unfold UpdateUniqueApexVariationsForDeps.
  assert (∀ m0, apexVariations m0 = apexVariations m →
            canHaveApexVariants m0 = canHaveApexVariants m →
            Apex_available (apexProperties m0) = Apex_available (apexProperties m) →
            Info (apexProperties m0) = Info (apexProperties m) →
            NotAvailableForPlatform (apexProperties m0)
            = NotAvailableForPlatform (apexProperties m) →
            foldl visitDirectDep m0 directDeps
            = set_UniqueApexVariationsForDeps
                (UniqueApexVariationsForDeps
                   (apexProperties (foldl visitDirectDep m0 directDeps))) m) as H.
  { induction directDeps as [|dep deps IH]; intros m0 H1 H2 H3 H4 H5; simpl.
    - destruct m0 as [[] ? ?], m as [[] ? ?]. simpl in *. by subst.
    - destruct (visitDirectDep_rest m0 dep) as (? & ? & ? & ? & ?).
      apply IH; congruence. }
  by apply H.
Qed.

(** X6: the module after [UpdateUniqueApexVariationsForDeps] does not depend
    on the order in which the direct dependencies are visited, nor on how
    often one is visited, and running the update again changes nothing. *)
Theorem UpdateUniqueApexVariationsForDeps_order (m : ApexModuleBase)
    (deps deps' : list Module) :
  (∀ dep, dep ∈ deps ↔ dep ∈ deps') →
  UpdateUniqueApexVariationsForDeps m deps = UpdateUniqueApexVariationsForDeps m deps'
  ∧ UpdateUniqueApexVariationsForDeps (UpdateUniqueApexVariationsForDeps m deps) deps'
    = UpdateUniqueApexVariationsForDeps m deps.
Proof.
  intros Hsame.
  assert (∀ (b1 b2 : bool), (b1 = true ↔ b2 = true) → b1 = b2) as Hbool.
  { intros [] [] [? ?]; auto. symmetry. auto. }
  split.
  - rewrite (UpdateUniqueApexVariationsForDeps_form m deps),
      (UpdateUniqueApexVariationsForDeps_form m deps'). f_equal. apply Hbool.
    rewrite !(UpdateUniqueApexVariationsForDeps_flag m m) by done.
    by setoid_rewrite Hsame.
  - set (m1 := UpdateUniqueApexVariationsForDeps m deps).
    assert (apexVariations m1 = apexVariations m) as Hvars.
    { unfold m1. rewrite (UpdateUniqueApexVariationsForDeps_form m deps). done. }
    rewrite (UpdateUniqueApexVariationsForDeps_form m1 deps').
    assert (UniqueApexVariationsForDeps
              (apexProperties (UpdateUniqueApexVariationsForDeps m1 deps'))
            = UniqueApexVariationsForDeps (apexProperties m1)) as ->.
    { apply Hbool.
      rewrite (UpdateUniqueApexVariationsForDeps_flag m m1 deps') by done.
      unfold m1 at 1 2.
      rewrite (UpdateUniqueApexVariationsForDeps_flag m m deps) by done.
      setoid_rewrite Hsame. tauto. }
    by destruct m1 as [[] ? ?].
Qed.

Lemma UpdateUniqueApexVariationsForDeps_order_witness :
  UpdateUniqueApexVariationsForDeps (baseWith sampleInfos) [OtherModule "libc"; uniqueDep]
  = UpdateUniqueApexVariationsForDeps (baseWith sampleInfos)
      [uniqueDep; OtherModule "libc"; uniqueDep].
Proof.
  apply (UpdateUniqueApexVariationsForDeps_order (baseWith sampleInfos)).
  intros dep. rewrite !elem_of_cons, !elem_of_nil. tauto.
Defined.

(** ** The choice of an SDK version *)

Lemma LessThanOrEqualTo_refl (lvl : ApiLevel) : LessThanOrEqualTo lvl lvl = true.
Proof.
  unfold LessThanOrEqualTo, CompareTo.
  destruct (isPreview lvl); by rewrite Z.compare_refl.
Qed.

(** X7: on candidates that all parse, to levels in ascending order (as the
    callers hand them over), [ChooseSdkVersion] never fails with a parse
    error: it returns a candidate of the list whose level is the highest of
    those at most the ceiling, or the not-found error when every candidate
    is above the ceiling (on the empty list, in particular). *)
Theorem ChooseSdkVersion_highest (ctx : Context) (versionList : list string)
    (maxSdkVersion : ApiLevel) :
  ascendingVersions ctx versionList →
  match ChooseSdkVersion ctx versionList maxSdkVersion with
  | inl version => highestQualifying ctx maxSdkVersion versionList version
  | inr err =>
      err = NotFoundVersion maxSdkVersion versionList
      ∧ Forall (aboveCeiling ctx maxSdkVersion) versionList
  end.
Proof.
  intros (levels & Hparse & Hsorted).
  destruct (ChooseSdkVersion ctx versionList maxSdkVersion) as [version|err] eqn:Hres;
    rewrite ChooseSdkVersion_scan in Hres.
  - apply scanCandidates_inl in Hres as (b & a & Hrev & Hall & (ver & Hver & Hle)).
    apply reverse_split in Hrev.
    split; [rewrite Hrev, elem_of_app, elem_of_cons; right; by left|].
    exists ver. split; [done|]. split; [done|].
    intros other ver' Hin Hother Hle'.
    rewrite Hrev in Hparse.
    apply Forall2_app_inv_l in Hparse as (la & lrest & Hla & Hrest & ->).
    apply Forall2_cons_inv_l in Hrest as (lv & lb & Hlv & Hlb & ->).
    assert (lv = ver) as -> by congruence.
    rewrite Hrev, elem_of_app, elem_of_cons in Hin.
    destruct Hin as [Hin|[->|Hin]].
    + apply list_elem_of_lookup in Hin as [i Hi].
      destruct (Forall2_lookup_l _ _ _ _ _ Hla Hi) as (lo & Hlo & Hpo).
      assert (lo = ver') as -> by congruence.
      apply StronglySorted_app in Hsorted as (Hcross & _ & _).
      apply (Hcross ver' ver); [by eapply list_elem_of_lookup_2 | left].
    + assert (ver' = ver) as -> by congruence. apply LessThanOrEqualTo_refl.
    + rewrite elem_of_reverse in Hin. rewrite Forall_forall in Hall.
      destruct (Hall other Hin) as (v2 & Hv2 & Hfalse). congruence.
  - destruct err as [msg|lvl l].
    + apply scanCandidates_parseError in Hres as (b & v & a & Hrev & _ & Hv).
      assert (v ∈ versionList) as Hin.
      { apply elem_of_reverse. rewrite Hrev, elem_of_app, elem_of_cons. right. by left. }
      apply list_elem_of_lookup in Hin as [i Hi].
      destruct (Forall2_lookup_l _ _ _ _ _ Hparse Hi) as (lo & _ & Hpo). congruence.
    + apply scanCandidates_notFound in Hres as (-> & -> & Hall).
      by rewrite Forall_reverse in Hall.
Qed.

Lemma ChooseSdkVersion_highest_witness :
  highestQualifying deviceContext (uncheckedFinalApiLevel 10) ["1"; "5"; "9"; "11"] "9".
Proof.
  apply (ChooseSdkVersion_highest deviceContext ["1"; "5"; "9"; "11"]
           (uncheckedFinalApiLevel 10)).
  exists (uncheckedFinalApiLevel <$> [1; 5; 9; 11]). split.
  - repeat constructor.
  - repeat constructor.
Defined.

(** ** Merging, further *)

Section MergeFurther.
Variable ctx : Context.

Lemma mergeApexVariations_inv `{!SortInterface} (l mergedL : list ApexInfo)
    (aliasesL : list (string * string)) :
  mergeApexVariations ctx l = Some (mergedL, aliasesL) →
  ∃ st, mergeInv ctx (sort_Sort l) st ∧ merged st = mergedL ∧ aliases st = aliasesL.
Proof.
  unfold mergeApexVariations. intros Hm.
  destruct (mergeApexVariations_loop ctx (sort_Sort l) _) as [st|] eqn:Hloop; [|done].
  injection Hm as <- <-. exists st. split; [|done].
  by apply (mergeInv_loop ctx _ [] _ _ (mergeInv_init ctx)).
Qed.

(** The aliases are the pairs of the name and the merged name of the input. *)
Lemma aliases_char `{!SortInterface} (l : list ApexInfo) (st : mergeState)
    (n k : string) :
  mergeInv ctx (sort_Sort l) st →
  (n, k) ∈ aliases st ↔
  ∃ a, a ∈ l ∧ n = ApexVariationName a ∧ mergedName ctx a = Some k.
Proof.
  intros Hinv. pose proof (inv_aliases _ _ _ Hinv) as HF. split.
  - intros Hin. apply list_elem_of_lookup in Hin as [i Hi].
    destruct (Forall2_lookup_r _ _ _ _ _ HF Hi) as (a & Ha & Hn & Hk).
    exists a. split; [|done].
    rewrite <- (sort_Sort_perm l). by eapply list_elem_of_lookup_2.
  - intros (a & Ha & -> & Hk). rewrite <- (sort_Sort_perm l) in Ha.
    apply list_elem_of_lookup in Ha as [i Hi].
    destruct (Forall2_lookup_l _ _ _ _ _ HF Hi) as ([n' k'] & Hal & Hn & Hk').
    simpl in *. assert (k' = k) as -> by congruence. subst n'.
    by eapply list_elem_of_lookup_2.
Qed.

(** Every alias points at the name of a merged entry. *)
Lemma aliases_target `{!SortInterface} (l : list ApexInfo) (st : mergeState)
    (n k : string) :
  mergeInv ctx (sort_Sort l) st →
  (n, k) ∈ aliases st → k ∈ ApexVariationName <$> merged st.
Proof.
  intros Hinv Hin. apply (aliases_char l st n k Hinv) in Hin as (a & Ha & _ & Hk).
  apply (merged_names_char ctx _ _ k Hinv). exists a. by rewrite sort_Sort_perm.
Qed.

(** X9: when the merge returns, the merged entries have pairwise distinct
    names, each the merged name of the entry itself; the aliases are exactly
    the pairs of the variation name and the merged name of the input
    requirements; every alias points at the name of a merged entry; and an
    updatable requirement makes the entry it is folded into updatable. *)
Theorem mergeApexVariations_aliases `{!SortInterface} (l mergedL : list ApexInfo)
    (aliasesL : list (string * string)) :
  mergeApexVariations ctx l = Some (mergedL, aliasesL) →
  NoDup (ApexVariationName <$> mergedL)
  ∧ (∀ e, e ∈ mergedL → mergedName ctx e = Some (ApexVariationName e))
  ∧ (∀ n k, (n, k) ∈ aliasesL ↔
            ∃ a, a ∈ l ∧ n = ApexVariationName a ∧ mergedName ctx a = Some k)
  ∧ (∀ n k, (n, k) ∈ aliasesL → k ∈ ApexVariationName <$> mergedL)
  ∧ (∀ a, a ∈ l → Updatable a = true →
          ∃ e, e ∈ mergedL ∧ mergedName ctx a = Some (ApexVariationName e)
               ∧ Updatable e = true).
Proof.
  intros Hm. destruct (mergeApexVariations_inv l _ _ Hm) as (st & Hinv & <- & <-).
  split; [by eapply merged_names_NoDup|].
  split; [intros e He; by eapply mergedFrom_key, (inv_from _ _ _ Hinv)|].
  split; [intros n k; by apply (aliases_char l)|].
  split; [intros n k; by apply (aliases_target l)|].
  intros a Ha Hu. rewrite <- (sort_Sort_perm l) in Ha.
  destruct (inv_covered _ _ _ Hinv a Ha) as (k & Hk & Hsome).
  destruct (merged_of_seen ctx _ _ k Hinv Hsome) as (e & He & <-).
  exists e. split; [done|]. split; [done|].
  destruct (inv_from _ _ _ Hinv e He) as (r & rest & Hg & _ & _ & _ & ->).
  apply existsb_exists. exists a. split; [|done].
  apply list_elem_of_In. rewrite <- Hg. unfold mergeGroup.
  by apply list_elem_of_filter.
Qed.

Lemma sort_Sort_unique (s1 s2 : SortInterface) (l l' : list ApexInfo) :
  NoDup (ApexVariationName <$> l) → l ≡ₚ l' →
  @sort_Sort s1 l = @sort_Sort s2 l'.
Proof.
  intros Hnd Hp.
  apply (StronglySorted_unique_strong byApexName_le);
    [|apply sort_Sort_sorted..|by rewrite !sort_Sort_perm].
  intros x1 x2 H1 H2 H12 H21. rewrite sort_Sort_perm in H1.
  rewrite sort_Sort_perm, <- Hp in H2.
  apply (NoDup_fmap_inj_on ApexVariationName l); [done..|].
  apply byApexName_le_names in H12, H21. by apply (anti_symm String.le).
Qed.

(** X10: for requirements with pairwise distinct variation names, as
    registration leaves them, the merge depends neither on the order in which
    they were registered nor on which sort [sort.Sort] is. *)
Theorem mergeApexVariations_order (s1 s2 : SortInterface) (l l' : list ApexInfo) :
  NoDup (ApexVariationName <$> l) → l ≡ₚ l' →
  @mergeApexVariations s1 ctx l = @mergeApexVariations s2 ctx l'.
Proof.
  intros Hnd Hp. unfold mergeApexVariations.
  by rewrite (sort_Sort_unique s1 s2 l l').
Qed.

End MergeFurther.

Lemma mergeApexVariations_aliases_witness :
  ∃ mergedL aliasesL,
    @mergeApexVariations mergeSort deviceContext sampleInfos = Some (mergedL, aliasesL)
    ∧ NoDup (ApexVariationName <$> mergedL).
Proof.
  eexists _, _. split; [vm_compute; reflexivity|].
  refine (proj1 (@mergeApexVariations_aliases deviceContext mergeSort sampleInfos _ _ _)).
  vm_compute. reflexivity.
Defined.

Lemma mergeApexVariations_order_witness :
  @mergeApexVariations mergeSort deviceContext sampleInfos
  = @mergeApexVariations mergeSort deviceContext (reverse sampleInfos).
Proof.
  apply mergeApexVariations_order.
  - compute_done.
  - apply Permutation_sym, reverse_Permutation.
Defined.

(** ** The variants, further *)

Lemma string_app_assoc (s t u : string) : (s +:+ t) +:+ u = s +:+ (t +:+ u).
Proof.
  induction s as [|c s IH]; [done|].
  change (String c ((s +:+ t) +:+ u) = String c (s +:+ (t +:+ u))). by rewrite IH.
Qed.

Lemma string_app_empty (s : string) : s +:+ "" = s.
Proof.
  induction s as [|c s IH]; [done|].
  change (String c (s +:+ "") = String c s). by rewrite IH.
Qed.

(** The merged name starts with [apex]; it is never the empty name of the
    platform variation. *)
Lemma mergedName_prefix (ctx : Context) (a : ApexInfo) (k : string) :
  mergedName ctx a = Some k → ∃ rest, k = "apex" +:+ rest.
Proof.
  unfold mergedName. destruct (MinSdkVersion ctx a) as [lvl|]; [|done]. simpl.
  intros [= <-].
  assert (∀ sdks name, ∃ r, mergedName_sdks name sdks = name +:+ r) as H.
  { unfold mergedName_sdks. induction sdks as [|sdk sdks IH]; intros name; simpl.
    - exists "". by rewrite string_app_empty.
    - destruct (IH (name +:+ "_" +:+ Name sdk +:+ "_" +:+ Version sdk)) as [r ->].
      eexists. rewrite !string_app_assoc. done. }
  destruct (H (RequiredSdks a) ("apex" +:+ Itoa (FinalOrFutureInt lvl))) as [r ->].
  eexists. by rewrite string_app_assoc.
Qed.

Section VariantsFurther.
Context (ctx : Context) `{!SortInterface}.

Lemma finishVariants_lookup (reqs : list ApexInfo) (mods mods' : list CreatedModule)
    (i j : nat) (md' : CreatedModule) :
  finishVariants ctx reqs i mods = Some mods' →
  mods' !! j = Some md' →
  ∃ md, mods !! j = Some md ∧ finishVariant ctx reqs (i + j) md = Some md'.
Proof.
  revert mods' i j. induction mods as [|m0 mods IH]; intros mods' i j; simpl.
  - intros [= <-]. by rewrite lookup_nil.
  - destruct (finishVariant ctx reqs i m0) as [m0'|] eqn:E0; [|done]. simpl.
    destruct (finishVariants ctx reqs (S i) mods) as [rest'|] eqn:Er; [|done]. simpl.
    intros [= <-]. destruct j as [|j]; simpl.
    + intros [= <-]. exists m0. by rewrite Nat.add_0_r.
    + intros Hj. destruct (IH rest' (S i) j Er Hj) as (md & ? & ?).
      exists md. split; [done|]. by rewrite <- Nat.add_succ_comm.
Qed.

Lemma CreateApexVariations_inv (self : ApexModule) (modules : list CreatedModule)
    (calls : MutatorCalls) :
  CreateApexVariations ctx self = Some (modules, Some calls) →
  ∃ reqs aliasesL,
    variationsToCreate ctx self = Some (reqs, aliasesL)
    ∧ finishVariants ctx reqs 0
        (CreateVariations (apexProperties (apexModuleBase self))
           ("" :: (ApexVariationName <$> reqs))) = Some modules
    ∧ createdVariations calls = "" :: (ApexVariationName <$> reqs)
    ∧ aliasVariations calls = aliasesL
    ∧ propertyErrors calls
      = checkApexAvailableProperty ctx
          (Apex_available (apexProperties (apexModuleBase self))).
Proof.
  unfold CreateApexVariations.
  destruct (0 <? length (apexVariations (apexModuleBase self)))%nat; [|done].
  destruct (variationsToCreate ctx self) as [[reqs aliasesL]|]; [|done].
  cbn [mbind option_bind].
  destruct (finishVariants ctx reqs 0 _) as [mods|] eqn:Hfin; [|done].
  cbn [mbind option_bind]. intros [= <- <-]. exists reqs, aliasesL. done.
Qed.


(** X12: when the module merges its variations, the aliases handed to the
    mutator lead from every registered variation name to one of the created
    variations, none of which but the first is the platform variation; a
    module with unique variations registers no alias. *)
Theorem CreateApexVariations_aliases (self : ApexModule) (modules : list CreatedModule)
    (calls : MutatorCalls) :
  CreateApexVariations ctx self = Some (modules, Some calls) →
  (mergesVariations self = true →
     (∀ a, a ∈ apexVariations (apexModuleBase self) →
           ∃ k, (ApexVariationName a, k) ∈ aliasVariations calls)
     ∧ (∀ n k, (n, k) ∈ aliasVariations calls →
           n ∈ ApexVariationName <$> apexVariations (apexModuleBase self)
           ∧ k ∈ createdVariations calls ∧ k ≠ "")
     ∧ (∀ i md, modules !! S i = Some md → IsForPlatform (variantProperties md) = false))
  ∧ (mergesVariations self = false → aliasVariations calls = []).
Proof.
  intros Hrun.
  destruct (CreateApexVariations_inv self modules calls Hrun)
    as (reqs & aliasesL & Hto & Hfin & Hcv & Hal & _).
  unfold variationsToCreate in Hto. fold (mergesVariations self) in Hto.
  split; intros Hmerge; rewrite Hmerge in Hto.
  - destruct (mergeApexVariations ctx (apexVariations (apexModuleBase self)))
      as [[mergedL al]|] eqn:Hm; [|done].
    simpl in Hto. injection Hto as <- <-.
    destruct (mergeApexVariations_inv ctx _ _ _ Hm) as (st & Hinv & <- & <-).
    assert (∀ k, k ∈ ApexVariationName <$> merged st → k ≠ "") as Hnonempty.
    { intros k Hk. apply list_elem_of_fmap in Hk as (e & -> & He).
      pose proof (mergedFrom_key ctx _ _ (inv_from _ _ _ Hinv e He)) as Hkey.
      apply mergedName_prefix in Hkey as [r ->]. done. }
    rewrite Hal, Hcv. split; [|split].
    + intros a Ha. pose proof Ha as Ha'. rewrite <- (sort_Sort_perm _) in Ha'.
      destruct (inv_covered _ _ _ Hinv a Ha') as (k & Hk & _).
      exists k. apply (aliases_char ctx _ st _ k Hinv). eauto.
    + intros n k Hin. pose proof (aliases_target ctx _ st n k Hinv Hin) as Hk.
      apply (aliases_char ctx _ st n k Hinv) in Hin as (a & Ha & -> & _).
      split; [by apply list_elem_of_fmap_2|]. split; [|by apply Hnonempty].
      right. by rewrite sort_Sort_perm.
    + intros i md Hmd.
      destruct (finishVariants_lookup _ _ _ 0 (S i) md Hfin Hmd) as (md0 & Hmd0 & Hfv).
      unfold finishVariant in Hfv. simpl in Hfv. rewrite Nat.sub_0_r in Hfv.
      destruct (sort_Sort (merged st) !! i) as [info|] eqn:Hinfo; [|done].
      simpl in Hfv. injection Hfv as <-. unfold IsForPlatform. simpl.
      apply String.eqb_neq, Hnonempty. rewrite <- (sort_Sort_perm (merged st)).
      apply list_elem_of_fmap_2. by eapply list_elem_of_lookup_2.
  - simpl in Hto. injection Hto as <- <-. done.
Qed.

End VariantsFurther.


Lemma CreateApexVariations_aliases_witness :
  ∃ modules calls,
    @CreateApexVariations mergeSort deviceContext sampleModule
    = Some (modules, Some calls)
    ∧ ∃ k, ("com.android.baz", k) ∈ aliasVariations calls.
Proof.
  destruct (@CreateApexVariations mergeSort deviceContext sampleModule)
    as [[modules [calls|]]|] eqn:Hrun; [|discriminate Hrun..].
  exists modules, calls. split; [reflexivity|].
  apply (proj1 (proj1 (@CreateApexVariations_aliases deviceContext mergeSort sampleModule
                        modules calls Hrun) eq_refl) (apexInfoOf "com.android.baz" "29")).
  right. right. left.
Defined.

(** ** The registry, further *)

Section Registry.
Variables (n : string) (d : bool).

(** The loop of [UpdateApexDependency] over [InApexes]. *)
Let loop (afm : gmap string bool) (l : list string) : gmap string bool :=
  foldl (λ (afm : gmap string bool) apexName, <[apexName := map_index afm n || d]> afm)
        afm l.

Lemma update_loop_own (l : list string) (afm : gmap string bool) (v : bool) :
  map_index afm n = v || d → map_index (loop afm l) n = v || d.
Proof.
  unfold loop. revert afm. induction l as [|an l IH]; intros afm Hn; simpl; [done|].
  apply IH. rewrite Hn. unfold map_index.
  destruct (decide (an = n)) as [->|Hne].
  - rewrite lookup_insert_eq. simpl. by rewrite <- orb_assoc, orb_diag.
  - rewrite lookup_insert_ne by done. exact Hn.
Qed.

Lemma update_loop_keys (l : list string) (afm : gmap string bool) (an : string) :
  is_Some (loop afm l !! an) ↔ is_Some (afm !! an) ∨ an ∈ l.
Proof.
  unfold loop. revert afm. induction l as [|x l IH]; intros afm; simpl.
  - rewrite elem_of_nil. tauto.
  - rewrite IH, elem_of_cons. destruct (decide (x = an)) as [->|Hne].
    + rewrite lookup_insert_eq. split; [intros _; right; by left | intros _; left; eauto].
    + rewrite lookup_insert_ne by done. split; [intros [?|?]; auto | intros [?|[?|?]]; auto].
      congruence.
Qed.

Lemma update_loop_stable (l : list string) (afm : gmap string bool) (an : string)
    (v : bool) :
  map_index afm n = v || d → map_index afm an = v || d →
  map_index (loop afm l) an = v || d.
Proof.
  unfold loop. revert afm. induction l as [|x l IH]; intros afm Hn Han; simpl; [done|].
  assert (∀ k, map_index afm k = v || d →
               map_index (<[x:=map_index afm n || d]> afm) k = v || d) as Hstep.
  { intros k Hk. unfold map_index. destruct (decide (x = k)) as [->|Hne].
    - rewrite lookup_insert_eq. simpl. fold (map_index afm n). rewrite Hn.
      by rewrite <- orb_assoc, orb_diag.
    - rewrite lookup_insert_ne by done. exact Hk. }
  apply IH; by apply Hstep.
Qed.

Lemma update_loop_member (l : list string) (afm : gmap string bool) (an : string)
    (v : bool) :
  an ∈ l → map_index afm n = v || d → map_index (loop afm l) an = v || d.
Proof.
  unfold loop. revert afm. induction l as [|x l IH]; intros afm Hin Hn; simpl.
  { by apply elem_of_nil in Hin. }
  assert (map_index (<[x:=map_index afm n || d]> afm) n = v || d) as Hn'.
  { unfold map_index. destruct (decide (x = n)) as [->|Hne].
    - rewrite lookup_insert_eq. simpl. fold (map_index afm n). rewrite Hn.
      by rewrite <- orb_assoc, orb_diag.
    - rewrite lookup_insert_ne by done. exact Hn. }
  apply elem_of_cons in Hin as [->|Hin]; [|by apply IH].
  apply update_loop_stable; [exact Hn'|].
  unfold map_index. rewrite lookup_insert_eq. simpl. fold (map_index afm n).
  rewrite Hn. by rewrite <- orb_assoc, orb_diag.
Qed.

End Registry.

Lemma GetApexesForModule_elem (names : gmap string (gmap string bool))
    (moduleName_ an : string) :
  an ∈ GetApexesForModule names moduleName_ ↔
  ∃ apexNames, names !! moduleName_ = Some apexNames ∧ is_Some (apexNames !! an).
Proof.
  unfold GetApexesForModule. destruct (names !! moduleName_) as [apexNames|].
  - rewrite list_elem_of_fmap. split.
    + intros ([k b] & -> & Hin). apply elem_of_map_to_list in Hin. eauto.
    + intros (? & [= <-] & [b Hb]). exists (an, b). split; [done|].
      by apply elem_of_map_to_list.
  - rewrite elem_of_nil. split; [done | intros (? & ? & _); done].
Qed.

(** X13: [UpdateApexDependency] ors [directDep] into the entry of the
    variation name of the requirement, whatever its [InApexes] are, and
    leaves the entries of every other module as they are. *)
Theorem UpdateApexDependency_variation (names : gmap string (gmap string bool))
    (apex : ApexInfo) (moduleName_ : string) (directDep : bool) :
  DirectlyInApex (UpdateApexDependency names apex moduleName_ directDep)
    (ApexVariationName apex) moduleName_
  = DirectlyInApex names (ApexVariationName apex) moduleName_ || directDep
  ∧ ∀ other, other ≠ moduleName_ →
      UpdateApexDependency names apex moduleName_ directDep !! other = names !! other.
Proof.
  unfold UpdateApexDependency, DirectlyInApex. split.
  - rewrite lookup_insert_eq.
    rewrite (update_loop_own _ _ _ _
               (map_index (default ∅ (names !! moduleName_)) (ApexVariationName apex))).
    + by destruct (names !! moduleName_).
    + unfold map_index at 1. by rewrite lookup_insert_eq.
  - intros other Hne. by rewrite lookup_insert_ne.
Qed.

(** X14: an update removes no entry: afterwards the module is in some APEX,
    and the APEXes recorded for it are those recorded before, the variation
    name of the requirement and its [InApexes]. *)
Theorem UpdateApexDependency_keys (names : gmap string (gmap string bool))
    (apex : ApexInfo) (moduleName_ : string) (directDep : bool) :
  InAnyApex (UpdateApexDependency names apex moduleName_ directDep) moduleName_ = true
  ∧ ∀ an,
      an ∈ GetApexesForModule (UpdateApexDependency names apex moduleName_ directDep)
             moduleName_ ↔
      an ∈ GetApexesForModule names moduleName_
      ∨ an = ApexVariationName apex ∨ an ∈ InApexes apex.
Proof.
  assert (∀ an,
      an ∈ GetApexesForModule (UpdateApexDependency names apex moduleName_ directDep)
             moduleName_ ↔
      an ∈ GetApexesForModule names moduleName_
      ∨ an = ApexVariationName apex ∨ an ∈ InApexes apex) as Hkeys.
  { intros an. rewrite !GetApexesForModule_elem. unfold UpdateApexDependency.
    rewrite lookup_insert_eq. split.
    - intros (afm & [= <-] & Hsome). apply update_loop_keys in Hsome as [Hsome|?]; [|auto].
      destruct (decide (ApexVariationName apex = an)) as [->|Hne]; [auto|].
      rewrite lookup_insert_ne in Hsome by done. left.
      destruct (names !! moduleName_) as [afm|]; [eauto|].
      simpl in Hsome. rewrite lookup_empty in Hsome. by destruct Hsome.
    - intros H. eexists. split; [done|]. apply update_loop_keys.
      destruct H as [(afm & Hafm & Hsome)|[->|?]]; [|left|by right].
      + left. rewrite Hafm. simpl.
        destruct (decide (ApexVariationName apex = an)) as [->|Hne].
        * rewrite lookup_insert_eq. eauto.
        * by rewrite lookup_insert_ne.
      + rewrite lookup_insert_eq. eauto. }
  split; [|done].
  assert (ApexVariationName apex
          ∈ GetApexesForModule (UpdateApexDependency names apex moduleName_ directDep)
              moduleName_) as Hin by (apply Hkeys; auto).
  apply GetApexesForModule_elem in Hin as (afm & Hafm & Hsome).
  unfold InAnyApex. rewrite Hafm. apply Nat.ltb_lt.
  destruct (decide (size afm = 0%nat)) as [Hz|?]; [|lia].
  apply map_size_empty_iff in Hz. subst afm. rewrite lookup_empty in Hsome.
  by destruct Hsome.
Qed.

Lemma UpdateApexDependency_own_witness :
  DirectlyInApex
    (UpdateApexDependency
       (UpdateApexDependency ∅ (apexInfoOf "b1" "current") "m" true)
       (apexInfoOf "b1" "current") "m" false) "b1" "m"
  = true.
Proof.
  rewrite (UpdateApexDependency_own _ (apexInfoOf "b1" "current") "m" false "b1" "m");
    reflexivity.
Defined.

(** A requirement that holds its own name only updates one entry. *)
Lemma UpdateApexDependency_own_form (names : gmap string (gmap string bool))
    (apex : ApexInfo) (moduleName_ : string) (directDep : bool) :
  ownApexOnly apex →
  UpdateApexDependency names apex moduleName_ directDep
  = <[moduleName_ :=
        <[ApexVariationName apex :=
            map_index (default ∅ (names !! moduleName_)) (ApexVariationName apex)
            || directDep]> (default ∅ (names !! moduleName_))]> names.
Proof.
  intros Hown. unfold UpdateApexDependency. rewrite Hown. simpl.
  unfold map_index at 1. rewrite lookup_insert_eq. simpl.
  by rewrite insert_insert_eq, <- orb_assoc, orb_diag.
Qed.

(** X16: for requirements as registered before merging, which hold their own
    name only, two updates commute: the registry after a run of such updates
    does not depend on their order. *)
Theorem UpdateApexDependency_commute (names : gmap string (gmap string bool))
    (apex1 apex2 : ApexInfo) (module1 module2 : string) (direct1 direct2 : bool) :
  ownApexOnly apex1 → ownApexOnly apex2 →
  UpdateApexDependency (UpdateApexDependency names apex1 module1 direct1)
    apex2 module2 direct2
  = UpdateApexDependency (UpdateApexDependency names apex2 module2 direct2)
      apex1 module1 direct1.
Proof.
  intros H1 H2. rewrite !UpdateApexDependency_own_form by done.
  destruct (decide (module1 = module2)) as [->|Hm].
  - rewrite !lookup_insert_eq, !insert_insert_eq. simpl. f_equal.
    set (afm := default ∅ (names !! module2)).
    destruct (decide (ApexVariationName apex1 = ApexVariationName apex2)) as [Hn|Hn].
    + rewrite Hn.
      assert (∀ b, map_index (<[ApexVariationName apex2 := b]> afm)
                     (ApexVariationName apex2) = b) as Hidx
        by (intros b; unfold map_index; by rewrite lookup_insert_eq).
      rewrite !Hidx, !insert_insert_eq. f_equal.
      rewrite <- !orb_assoc. f_equal. apply orb_comm.
    + assert (∀ k k' b, k ≠ k' →
                map_index (<[k := b]> afm) k' = map_index afm k') as Hidx
        by (intros k k' b ?; unfold map_index; by rewrite lookup_insert_ne).
      rewrite !Hidx by done. by apply insert_insert_ne.
  - rewrite !lookup_insert_ne by done. by apply insert_insert_ne.
Qed.

Lemma UpdateApexDependency_commute_witness :
  UpdateApexDependency (UpdateApexDependency ∅ (apexInfoOf "b1" "current") "m" true)
    (apexInfoOf "b1" "current") "m" false
  = UpdateApexDependency (UpdateApexDependency ∅ (apexInfoOf "b1" "current") "m" false)
      (apexInfoOf "b1" "current") "m" true.
Proof. apply UpdateApexDependency_commute; reflexivity. Defined.

(** X17: [DirectlyInAllApexes] holds exactly when [DirectlyInApex] holds for
    every name of the list; for the empty list it holds even of a module the
    registry does not know. *)
Theorem DirectlyInAllApexes_spec (names : gmap string (gmap string bool))
    (apexNames : list string) (moduleName_ : string) :
  (DirectlyInAllApexes names apexNames moduleName_ = true ↔
   ∀ an, an ∈ apexNames → DirectlyInApex names an moduleName_ = true)
  ∧ DirectlyInAllApexes names [] moduleName_ = true.
Proof.
  split; [|done]. unfold DirectlyInAllApexes, DirectlyInApex.
  rewrite forallb_forall. setoid_rewrite <- list_elem_of_In.
  destruct (names !! moduleName_); simpl; [done|].
  unfold map_index. setoid_rewrite lookup_empty. done.
Qed.

(** X18: [DirectlyInAnyApex] is [false] on the host; on a device it holds
    exactly when some APEX has the module as a direct member, whatever the
    order in which the map is ranged over; a module directly in some APEX is
    in some APEX, and a module is in some APEX exactly when
    [GetApexesForModule] is not empty. *)
Theorem DirectlyInAnyApex_spec (names : gmap string (gmap string bool))
    (moduleName_ : string) :
  DirectlyInAnyApex true names moduleName_ = false
  ∧ (DirectlyInAnyApex false names moduleName_ = true ↔
     ∃ an, DirectlyInApex names an moduleName_ = true)
  ∧ (DirectlyInAnyApex false names moduleName_ = true →
     InAnyApex names moduleName_ = true)
  ∧ (InAnyApex names moduleName_ = true ↔ GetApexesForModule names moduleName_ ≠ []).
Proof.
  assert (DirectlyInAnyApex false names moduleName_ = true ↔
          ∃ an, DirectlyInApex names an moduleName_ = true) as Hany.
  { unfold DirectlyInAnyApex, DirectlyInApex.
    destruct (names !! moduleName_) as [afm|]; [|split; [done | intros [? ?]; done]].
    rewrite existsb_exists. split.
    - intros (an & _ & ?). eauto.
    - intros (an & Han). exists an. split; [|done]. apply list_elem_of_In.
      unfold map_index in Han. destruct (afm !! an) as [b|] eqn:Hb; [|done].
      apply list_elem_of_fmap. exists (an, b). split; [done|].
      by apply elem_of_map_to_list. }
  assert (InAnyApex names moduleName_ = true ↔ GetApexesForModule names moduleName_ ≠ [])
    as Hin.
  { unfold InAnyApex, GetApexesForModule.
    destruct (names !! moduleName_) as [afm|]; [|done].
    rewrite Nat.ltb_lt, <- length_map_to_list, <- (length_fmap fst).
    destruct ((map_to_list afm).*1); simpl; split; try done; lia. }
  split; [done|]. split; [done|]. split; [|done].
  intros Hd. apply Hany in Hd as [an Han]. apply Hin. intros Hnil.
  unfold DirectlyInApex in Han. destruct (names !! moduleName_) as [afm|] eqn:Hafm; [|done].
  unfold map_index in Han. destruct (afm !! an) as [b|] eqn:Hb; [|done].
  assert (an ∈ GetApexesForModule names moduleName_) as Hel
    by (apply GetApexesForModule_elem; eauto).
  rewrite Hnil in Hel. inversion Hel.
Qed.

(** ** The min_sdk_version check, further *)

Lemma PayloadDeps_Forall_ind (P : PayloadDeps → Prop) :
  (∀ dep below, Forall P below → P (PayloadEdge dep below)) → ∀ t, P t.
Proof.
  intros H. fix IH 1. intros [dep below]. apply H.
  induction below as [|x l IHl]; constructor; [apply IH | apply IHl].
Qed.

Lemma WalkPayloadDeps_sound (do : PayloadDep → bool * option ModuleError)
    (t : PayloadDeps) :
  ∀ errs e, e ∈ WalkPayloadDeps do errs t →
    e ∈ errs ∨ ∃ dep, dep ∈ payloadEdges t ∧ (do dep).2 = Some e.
Proof.
  induction t as [dep below IH] using PayloadDeps_Forall_ind. intros errs e. simpl.
  destruct (do dep) as [descend report] eqn:Hdo.
  assert (∀ errs', e ∈ errs' ++ from_option (λ e, [e]) [] report →
            e ∈ errs' ∨ (do dep).2 = Some e) as Hreport.
  { intros errs'. rewrite elem_of_app, Hdo. destruct report as [r|]; simpl.
    - rewrite list_elem_of_singleton. intros [?| ->]; auto.
    - rewrite elem_of_nil. intros [?|Hf]; [auto | done]. }
  destruct descend.
  - assert (∀ errs', e ∈ foldl (WalkPayloadDeps do) errs' below →
              e ∈ errs' ∨ ∃ dep', dep' ∈ mjoin (payloadEdges <$> below)
                                  ∧ (do dep').2 = Some e) as Hbelow.
    { clear Hreport. induction below as [|t below IHb]; intros errs'; simpl; [auto|].
      apply Forall_cons in IH as [IHt IH]. intros Hin.
      destruct (IHb IH _ Hin) as [Hin'|(dep' & ? & ?)].
      - destruct (IHt _ _ Hin') as [?|(dep' & ? & ?)]; [auto|].
        right. exists dep'. rewrite elem_of_app. auto.
      - right. exists dep'. rewrite elem_of_app. auto. }
    intros Hin. destruct (Hbelow _ Hin) as [Hin'|(dep' & ? & ?)].
    + destruct (Hreport _ Hin') as [?|?]; [auto|].
      right. exists dep. split; [left | done].
    + right. exists dep'. split; [by right | done].
  - intros Hin. destruct (Hreport _ Hin) as [?|?]; [auto|].
    right. exists dep. split; [left | done].
Qed.

Lemma checkMinSdkVersion_do_report (forModule : string) (minSdkVersion : ApiLevel)
    (dep : PayloadDep) (e : ModuleError) :
  (checkMinSdkVersion_do forModule minSdkVersion dep).2 = Some e →
  violates forModule minSdkVersion dep e.
Proof.
  unfold checkMinSdkVersion_do, violates, grandfathered, violation.
  destruct (externalDep dep); [done|].
  destruct (fromDepIsInSameApex dep) as [[|]|] eqn:Hsame; [|done|].
  all: destruct (ShouldSupportSdkVersion (to dep) minSdkVersion) as [err|]; [|done].
  all: destruct (minSdkVersionAllowlist !! moduleName (to dep)) as [ver|] eqn:Hal.
  all: try (destruct (GreaterThan ver minSdkVersion) eqn:Hgt; [|done]).
  all: simpl; intros [= <-]; split; [done|]; split; [done|]; split; [|eauto].
  all: intros (v & Hv & Hngt); congruence.
Qed.

(** X19: every error [CheckMinSdkVersion] reports comes from an edge of the
    payload, at some depth, that is not external, is not declared outside the
    APEX by its source, and whose target neither supports the level nor is
    exempted by the allow-list; the build is then a device build without
    coverage and the level is not [current].  So a payload whose targets all
    support the level yields no error. *)
Theorem CheckMinSdkVersion_sound (m : UpdatableModule) (ctx : Context)
    (minSdkVersion : ApiLevel) :
  (∀ e, e ∈ CheckMinSdkVersion m ctx minSdkVersion →
     Host ctx = false
     ∧ EmmaInstrument ctx = false
     ∧ NativeCoverageEnabled ctx = false
     ∧ ClangCoverageEnabled ctx = false
     ∧ IsCurrent minSdkVersion = false
     ∧ ∃ dep, dep ∈ mjoin (payloadEdges <$> payloadDeps m)
              ∧ violates (updatableName m) minSdkVersion dep e)
  ∧ ((∀ dep, dep ∈ mjoin (payloadEdges <$> payloadDeps m) →
        ShouldSupportSdkVersion (to dep) minSdkVersion = None) →
     CheckMinSdkVersion m ctx minSdkVersion = []).
Proof.
  assert (∀ e, e ∈ CheckMinSdkVersion m ctx minSdkVersion →
     Host ctx = false
     ∧ EmmaInstrument ctx = false
     ∧ NativeCoverageEnabled ctx = false
     ∧ ClangCoverageEnabled ctx = false
     ∧ IsCurrent minSdkVersion = false
     ∧ ∃ dep, dep ∈ mjoin (payloadEdges <$> payloadDeps m)
              ∧ violates (updatableName m) minSdkVersion dep e) as Hsound.
  { intros e. unfold CheckMinSdkVersion.
    destruct (Host ctx); [by rewrite elem_of_nil|].
    destruct (EmmaInstrument ctx); [by rewrite elem_of_nil|].
    destruct (NativeCoverageEnabled ctx); [by rewrite elem_of_nil|].
    destruct (ClangCoverageEnabled ctx); [by rewrite elem_of_nil|].
    destruct (IsCurrent minSdkVersion); [by rewrite elem_of_nil|]. simpl.
    intros Hin. repeat (split; [done|]).
    set (do := checkMinSdkVersion_do (updatableName m) minSdkVersion) in *.
    assert (∀ ts errs, e ∈ foldl (WalkPayloadDeps do) errs ts →
              e ∈ errs ∨ ∃ dep, dep ∈ mjoin (payloadEdges <$> ts) ∧ (do dep).2 = Some e)
      as Hwalk.
    { induction ts as [|t ts IHts]; intros errs; simpl; [auto|]. intros Hin'.
      destruct (IHts _ Hin') as [Hin''|(dep & ? & ?)].
      - destruct (WalkPayloadDeps_sound do t _ _ Hin'') as [?|(dep & ? & ?)]; [auto|].
        right. exists dep. rewrite elem_of_app. auto.
      - right. exists dep. rewrite elem_of_app. auto. }
    destruct (Hwalk _ _ Hin) as [Hnil|(dep & Hdep & Hrep)]; [by rewrite elem_of_nil in Hnil|].
    exists dep. split; [done|]. by apply checkMinSdkVersion_do_report. }
  split; [done|]. intros Hsupport.
  destruct (CheckMinSdkVersion m ctx minSdkVersion) as [|e errs] eqn:Hres; [done|].
  destruct (Hsound e) as (_ & _ & _ & _ & _ & dep & Hdep & _ & _ & _ & err & Herr & _);
    [left|].
  rewrite (Hsupport dep Hdep) in Herr. done.
Qed.

Lemma CheckMinSdkVersion_sound_witness :
  CheckMinSdkVersion
    {| updatableName := "myapex";
       payloadDeps :=
         [PayloadEdge (payloadDepTo (moduleSince "libfoo" (uncheckedFinalApiLevel 28)) false)
            []] |}
    deviceContext (uncheckedFinalApiLevel 29) = [].
Proof.
  apply (proj2 (CheckMinSdkVersion_sound _ _ _)).
  intros dep Hdep. apply list_elem_of_singleton in Hdep. subst dep. reflexivity.
Defined.

(** ** The dexpreopt check of the system server jars *)

Lemma dexpreopt_record_jars (cfg : Dexpreopt.Config) (jars : list string)
    (m : gmap string (list string)) (name : string) :
  foldl (λ (m : gmap string (list string)) jar, <[jar := Dexpreopt.jarArtifacts cfg jar]> m)
        m jars !! name
  = if decide (name ∈ jars) then Some (Dexpreopt.jarArtifacts cfg name) else m !! name.
Proof.
  revert m. induction jars as [|jar jars IH]; intros m; cbn [foldl].
  - by rewrite decide_False by (inversion 1).
  - rewrite IH. destruct (decide (name ∈ jars)) as [Hin|Hout].
    + by rewrite decide_True by (by right).
    + destruct (decide (name = jar)) as [->|Hne].
      * rewrite lookup_insert_eq. by rewrite decide_True by left.
      * rewrite lookup_insert_ne by done.
        by rewrite decide_False by (rewrite elem_of_cons; intros [?|?]; done).
Qed.

(** X20: [GenerateAndroidBuildActions] leaves the map as it is when preopt is
    disabled, there is no Android target or the build is unbundled;
    otherwise it records, for every system server jar and for no other name,
    the install paths of its odex and of its vdex file, replacing what the
    map held for the jar. *)
Theorem GenerateAndroidBuildActions_spec (cfg : Dexpreopt.Config)
    (m : gmap string (list string)) :
  let skipped :=
    Dexpreopt.DisablePreopt cfg || (length (Dexpreopt.Targets cfg) =? 0)%nat
    || Dexpreopt.UnbundledBuild cfg in
  (skipped = true → Dexpreopt.GenerateAndroidBuildActions cfg m = m)
  ∧ (skipped = false →
     ∀ name,
       Dexpreopt.GenerateAndroidBuildActions cfg m !! name
       = if decide (name ∈ Dexpreopt.SystemServerJars cfg)
         then Some (Dexpreopt.jarArtifacts cfg name) else m !! name).
Proof.
  unfold Dexpreopt.GenerateAndroidBuildActions. split; intros ->; [done|].
  apply dexpreopt_record_jars.
Qed.

Lemma GenerateSingletonBuildActions_bind (byName : gmap string (list string))
    (artifacts allModules : list string) :
  Dexpreopt.GenerateSingletonBuildActions byName artifacts allModules
  = artifacts ++ (allModules ≫= λ name, default [] (byName !! name)).
Proof.
  unfold Dexpreopt.GenerateSingletonBuildActions. revert artifacts.
  induction allModules as [|name mods IH]; intros artifacts; simpl.
  - by rewrite app_nil_r.
  - rewrite IH. destruct (byName !! name); simpl; [by rewrite <- app_assoc | done].
Qed.

(** X21: [GenerateSingletonBuildActions] appends to the artifacts those of
    the visited modules that have an entry, in visiting order, and nothing
    for the others.  After [GenerateAndroidBuildActions] has run on an empty
    map without being skipped, that is two artifacts for every visited module
    that is a system server jar. *)
Theorem GenerateSingletonBuildActions_spec (cfg : Dexpreopt.Config)
    (byName : gmap string (list string)) (artifacts allModules : list string) :
  Dexpreopt.GenerateSingletonBuildActions byName artifacts allModules
  = artifacts ++ (allModules ≫= λ name, default [] (byName !! name))
  ∧ (Dexpreopt.DisablePreopt cfg || (length (Dexpreopt.Targets cfg) =? 0)%nat
     || Dexpreopt.UnbundledBuild cfg = false →
     length (Dexpreopt.GenerateSingletonBuildActions
               (Dexpreopt.GenerateAndroidBuildActions cfg ∅) artifacts allModules)
     = (length artifacts
        + 2 * length (filter (.∈ Dexpreopt.SystemServerJars cfg) allModules))%nat).
Proof.
  split; [apply GenerateSingletonBuildActions_bind|]. intros Hrun.
  rewrite GenerateSingletonBuildActions_bind, length_app. f_equal.
  unfold Dexpreopt.GenerateAndroidBuildActions. rewrite Hrun.
  induction allModules as [|name mods IH]; [done|].
  cbn [mbind list_bind]. rewrite length_app, IH, filter_cons, dexpreopt_record_jars.
  destruct (decide (name ∈ Dexpreopt.SystemServerJars cfg)); simpl; [lia|].
  by rewrite lookup_empty.
Qed.

Lemma GenerateAndroidBuildActions_spec_witness :
  Dexpreopt.GenerateAndroidBuildActions
    {| Dexpreopt.DisablePreopt := true; Dexpreopt.Targets := ["arm64"];
       Dexpreopt.UnbundledBuild := false; Dexpreopt.SystemServerJars := ["services"];
       Dexpreopt.GetSystemServerDexLocation := λ jar, "/system/framework/" +:+ jar +:+ ".jar";
       Dexpreopt.ToOdexPath := λ dex arch, dex +:+ "." +:+ arch +:+ ".odex";
       Dexpreopt.ReplaceExtension := λ path ext, path +:+ "." +:+ ext;
       Dexpreopt.InstallPathString := λ path, "out/" +:+ path |}
    ∅ = ∅.
Proof. apply (proj1 (GenerateAndroidBuildActions_spec _ ∅)). reflexivity. Defined.

Lemma GenerateSingletonBuildActions_spec_witness :
  length
    (Dexpreopt.GenerateSingletonBuildActions
       (Dexpreopt.GenerateAndroidBuildActions
          {| Dexpreopt.DisablePreopt := false; Dexpreopt.Targets := ["arm64"];
             Dexpreopt.UnbundledBuild := false;
             Dexpreopt.SystemServerJars := ["services"];
             Dexpreopt.GetSystemServerDexLocation :=
               λ jar, "/system/framework/" +:+ jar +:+ ".jar";
             Dexpreopt.ToOdexPath := λ dex arch, dex +:+ "." +:+ arch +:+ ".odex";
             Dexpreopt.ReplaceExtension := λ path ext, path +:+ "." +:+ ext;
             Dexpreopt.InstallPathString := λ path, "out/" +:+ path |} ∅)
       [] ["libc"; "services"])
  = 2%nat.
Proof.
  rewrite (proj2 (GenerateSingletonBuildActions_spec _ ∅ [] ["libc"; "services"]));
    reflexivity.
Defined.

(** ** Registration order and the variants *)

(** X22: the requirements of a module are registered by several callers in
    no fixed order.  When their variation names are pairwise distinct, as
    registration leaves them, everything [CreateApexVariations] returns and
    asks of the mutator is the same for every order of the list, and for
    every sort [sort.Sort] may be. *)
Theorem CreateApexVariations_registration_order (s1 s2 : SortInterface) (mctx : Context)
    (self : ApexModule) (registered : list ApexInfo) :
  NoDup (ApexVariationName <$> apexVariations (apexModuleBase self)) →
  apexVariations (apexModuleBase self) ≡ₚ registered →
  @CreateApexVariations s1 mctx self
  = @CreateApexVariations s2 mctx
      {| moduleName := moduleName self;
         apexModuleBase := set_apexVariations registered (apexModuleBase self);
         UniqueApexVariations := UniqueApexVariations self;
         ShouldSupportSdkVersion := ShouldSupportSdkVersion self |}.
Proof.
  intros Hnd Hp. unfold CreateApexVariations, variationsToCreate. simpl.
  rewrite <- (Permutation_length Hp).
  assert (@mergeApexVariations s1 mctx (apexVariations (apexModuleBase self))
          = @mergeApexVariations s2 mctx registered) as ->.
  { unfold mergeApexVariations.
    by rewrite (sort_Sort_unique s1 s2 _ registered Hnd Hp). }
  destruct (0 <? _)%nat; [|done].
  assert (@sort_Sort s1 (apexVariations (apexModuleBase self))
          = @sort_Sort s2 registered) as Hsort
    by apply (sort_Sort_unique s1 s2 _ registered Hnd Hp).
  destruct (UniqueApexVariations self); simpl; [by rewrite Hsort|].
  destruct (UniqueApexVariationsForDeps _); simpl; [by rewrite Hsort|].
  destruct (@mergeApexVariations s2 mctx registered) as [[mergedL aliasesL]|] eqn:Hm;
    [|done].
  simpl. destruct (mergeApexVariations_inv mctx _ _ _ Hm) as (st & Hinv & <- & _).
  by rewrite (sort_Sort_unique s1 s2 (merged st) (merged st))
    by (done || by eapply merged_names_NoDup).
Qed.

Lemma CreateApexVariations_registration_order_witness :
  @CreateApexVariations mergeSort deviceContext sampleModule
  = @CreateApexVariations mergeSort deviceContext
      {| moduleName := moduleName sampleModule;
         apexModuleBase :=
           set_apexVariations (reverse sampleInfos) (apexModuleBase sampleModule);
         UniqueApexVariations := UniqueApexVariations sampleModule;
         ShouldSupportSdkVersion := ShouldSupportSdkVersion sampleModule |}.
Proof.
  apply (CreateApexVariations_registration_order mergeSort mergeSort deviceContext
           sampleModule (reverse sampleInfos)).
  - compute_done.
  - symmetry. apply reverse_Permutation.
Defined.

(** ** What a call records for the APEXes a requirement stands for *)

(** X23: after a call of [UpdateApexDependency], the entry of every APEX
    the requirement stands for is the entry of its variation name: what the
    variation name had recorded before, or the flag of the call.  What the
    APEX itself had recorded before the call plays no part. *)
Theorem UpdateApexDependency_members (names : gmap string (gmap string bool))
    (apex : ApexInfo) (moduleName_ apexName : string) (directDep : bool) :
  apexName ∈ InApexes apex →
  DirectlyInApex (UpdateApexDependency names apex moduleName_ directDep)
    apexName moduleName_
  = DirectlyInApex names (ApexVariationName apex) moduleName_ || directDep.
Proof.
  intros Hin. unfold UpdateApexDependency, DirectlyInApex.
  rewrite lookup_insert_eq.
  rewrite (update_loop_member _ _ _ _ _
             (map_index (default ∅ (names !! moduleName_)) (ApexVariationName apex)) Hin).
  - by destruct (names !! moduleName_).
  - unfold map_index at 1. by rewrite lookup_insert_eq.
Qed.

Lemma UpdateApexDependency_members_witness :
  DirectlyInApex (UpdateApexDependency ∅ mergedInfoB1 "m" true) "b1" "m"
  = DirectlyInApex ∅ (ApexVariationName mergedInfoB1) "m" || true.
Proof.
  apply (UpdateApexDependency_members ∅ mergedInfoB1 "m" "b1" true).
  compute_done.
Defined.
